(** * One-Time Password (tray): credential store and clipboard auto-clear

    A shallow embedding of [app.py] (keyring-backed store) and [app_V2.py]
    (DPAPI-backed store with a base64 fallback), together with the part of
    the Python standard library and of Qt that the two programs call.

    Layout: Python values and the exception/state monad, the codecs
    (UTF-8, ASCII, base64), the environment (platform, files, keyring,
    clipboard, Qt timers), the two programs, and then the theorems. *)

From stdpp Require Import base option list gmap.
From Stdlib Require Import NArith ZArith Lia Bool List Strings.Byte Strings.String Strings.Ascii.
Import ListNotations.

Set Implicit Arguments.
Set Warnings "-register-all".
Open Scope N_scope.

(* ===================================================================== *)
(** ** Python values, exceptions, and the state/exception monad          *)
(* ===================================================================== *)

(** The exception classes that the modelled calls can raise.  All of them
    derive from [Exception], so [except Exception] catches every one. *)
Inductive exn : Type :=
| OSError
| FileNotFoundError
| ValueError
| TypeError
| AttributeError
| UnicodeEncodeError
| UnicodeDecodeError
| JSONDecodeError
| KeyringError
| RuntimeError
| ArgumentError
| OverflowError.

Inductive res (A : Type) : Type :=
| Ok (a : A)
| Raise (e : exn).
Arguments Ok {A} a.
Arguments Raise {A} e.

(** A statement either falls through to the next one or executes [return]. *)
Inductive flow (A : Type) : Type :=
| Next
| Return (a : A).
Arguments Next {A}.
Arguments Return {A} a.

(** Computations over a mutable state [S].  The state is threaded through a
    raise: whatever was assigned before the exception stays assigned. *)
Definition M (S A : Type) : Type := S -> res A * S.

Definition ret {S A} (a : A) : M S A := fun s => (Ok a, s).

Definition raise {S A} (e : exn) : M S A := fun s => (Raise e, s).

Definition bind {S A B} (m : M S A) (k : A -> M S B) : M S B :=
  fun s => match m s with
           | (Ok a, s') => k a s'
           | (Raise e, s') => (Raise e, s')
           end.

Notation "x <- c ;; k" := (bind c (fun x => k))
  (at level 100, c at next level, right associativity).
Notation "c ;;; k" := (bind c (fun _ => k))
  (at level 100, right associativity).

Definition gets {S A} (f : S -> A) : M S A := fun s => (Ok (f s), s).

Definition modify {S} (f : S -> S) : M S unit := fun s => (Ok tt, f s).

Definition lift_res {S A} (r : res A) : M S A := fun s => (r, s).

(** [try: body except Exception: handler] *)
Definition try_except {S A} (body : M S A) (handler : exn -> M S A) : M S A :=
  fun s => match body s with
           | (Ok a, s') => (Ok a, s')
           | (Raise e, s') => handler e s'
           end.

(** [try: body finally: fin]: [fin] runs on every exit and the outcome of
    [body] (value or exception) is kept. *)
Definition try_finally {S A} (body : M S A) (fin : M S unit) : M S A :=
  fun s => match body s with
           | (r, s') => match fin s' with
                        | (Ok _, s'') => (r, s'')
                        | (Raise e, s'') => (Raise e, s'')
                        end
           end.

(** Run a computation on a component of the state. *)
Definition zoom {S T A} (proj : S -> T) (upd : T -> S -> S) (m : M T A) : M S A :=
  fun s => match m (proj s) with (r, t') => (r, upd t' s) end.

(** Python [str]: a sequence of code points.  Lone surrogates are legal
    members of a [str]; they are what [encode("utf-8")] rejects. *)
Abbreviation str := (list N).
Abbreviation bytes := (list byte).

Definition lit (s : string) : str :=
  List.map (fun a => N_of_ascii a) (list_ascii_of_string s).

Definition str_eqb (a b : str) : bool :=
  if list_eq_dec N.eq_dec a b then true else false.

(** The values [json.load] can produce ([None] is [JNull]). *)
Inductive json : Type :=
| JNull
| JBool (b : bool)
| JNum (z : Z)
| JStr (s : str)
| JList (l : list json)
| JDict (d : list (str * json)).

(** Python truth value. *)
Definition truthy (v : json) : bool :=
  match v with
  | JNull => false
  | JBool b => b
  | JNum z => negb (Z.eqb z 0)
  | JStr s => match s with [] => false | _ => true end
  | JList l => match l with [] => false | _ => true end
  | JDict d => match d with [] => false | _ => true end
  end.

(** Truth value of an [Optional[str]]: [None] and [""] are both false. *)
Definition truthy_opt (o : option str) : bool :=
  match o with
  | Some (_ :: _) => true
  | _ => false
  end.

Fixpoint assoc_find (k : str) (d : list (str * json)) : option json :=
  match d with
  | [] => None
  | (k', v) :: r => if str_eqb k k' then Some v else assoc_find k r
  end.

(** [data.get(key)]: only a dict has the method. *)
Definition py_get (data : json) (key : str) : res json :=
  match data with
  | JDict d => Ok (match assoc_find key d with Some v => v | None => JNull end)
  | _ => Raise AttributeError
  end.

(** [a or b] *)
Definition py_or (a b : json) : json := if truthy a then a else b.

(* ===================================================================== *)
(** ** Codecs of the Python standard library                              *)
(* ===================================================================== *)

Definition b8 (n : N) : byte :=
  match Byte.of_N (n mod 256) with
  | Some b => b
  | None => "000"%byte
  end.

Definition is_surrogate (c : N) : bool := (0xD800 <=? c) && (c <=? 0xDFFF).

(** [str.encode("utf-8")], one code point. *)
Definition utf8_encode_cp (c : N) : res bytes :=
  if c <? 0x80 then Ok [b8 c]
  else if c <? 0x800 then Ok [b8 (0xC0 + c / 64); b8 (0x80 + c mod 64)]
  else if c <? 0x10000 then
    if is_surrogate c then Raise UnicodeEncodeError
    else Ok [b8 (0xE0 + c / 4096); b8 (0x80 + (c / 64) mod 64); b8 (0x80 + c mod 64)]
  else if c <? 0x110000 then
    Ok [b8 (0xF0 + c / 262144); b8 (0x80 + (c / 4096) mod 64);
        b8 (0x80 + (c / 64) mod 64); b8 (0x80 + c mod 64)]
  else Raise UnicodeEncodeError.

Fixpoint utf8_encode (s : str) : res bytes :=
  match s with
  | [] => Ok []
  | c :: r =>
      match utf8_encode_cp c with
      | Raise e => Raise e
      | Ok bs => match utf8_encode r with
                 | Raise e => Raise e
                 | Ok br => Ok (bs ++ br)
                 end
      end
  end.

Definition is_cont (b : byte) : bool :=
  (0x80 <=? Byte.to_N b) && (Byte.to_N b <? 0xC0).

Definition cont (b : byte) : N := Byte.to_N b - 0x80.

Definition res_cons (c : N) (r : res str) : res str :=
  match r with
  | Ok s => Ok (c :: s)
  | Raise e => Raise e
  end.

(** [bytes.decode("utf-8")], strict: stray or missing continuation bytes,
    overlong forms, surrogates and values above U+10FFFF are errors. *)
Fixpoint utf8_decode (bs : bytes) : res str :=
  match bs with
  | [] => Ok []
  | b0 :: r0 =>
      let n0 := Byte.to_N b0 in
      if n0 <? 0x80 then res_cons n0 (utf8_decode r0)
      else if n0 <? 0xC0 then Raise UnicodeDecodeError
      else if n0 <? 0xE0 then
        match r0 with
        | b1 :: r1 =>
            let c := (n0 - 0xC0) * 64 + cont b1 in
            if is_cont b1 && (0x80 <=? c)
            then res_cons c (utf8_decode r1)
            else Raise UnicodeDecodeError
        | _ => Raise UnicodeDecodeError
        end
      else if n0 <? 0xF0 then
        match r0 with
        | b1 :: b2 :: r2 =>
            let c := (n0 - 0xE0) * 4096 + cont b1 * 64 + cont b2 in
            if is_cont b1 && is_cont b2 && (0x800 <=? c) && negb (is_surrogate c)
            then res_cons c (utf8_decode r2)
            else Raise UnicodeDecodeError
        | _ => Raise UnicodeDecodeError
        end
      else if n0 <? 0xF8 then
        match r0 with
        | b1 :: b2 :: b3 :: r3 =>
            let c := (n0 - 0xF0) * 262144 + cont b1 * 4096 + cont b2 * 64 + cont b3 in
            if is_cont b1 && is_cont b2 && is_cont b3
               && (0x10000 <=? c) && (c <? 0x110000)
            then res_cons c (utf8_decode r3)
            else Raise UnicodeDecodeError
        | _ => Raise UnicodeDecodeError
        end
      else Raise UnicodeDecodeError
  end.

(** [str.encode("ascii")] and [bytes.decode("ascii")]. *)
Fixpoint ascii_encode (s : str) : res bytes :=
  match s with
  | [] => Ok []
  | c :: r =>
      if c <? 0x80 then
        match ascii_encode r with
        | Ok br => Ok (b8 c :: br)
        | Raise e => Raise e
        end
      else Raise UnicodeEncodeError
  end.

Fixpoint ascii_decode (bs : bytes) : res str :=
  match bs with
  | [] => Ok []
  | b :: r =>
      if Byte.to_N b <? 0x80 then res_cons (Byte.to_N b) (ascii_decode r)
      else Raise UnicodeDecodeError
  end.

(** The base64 alphabet: index to character and back. *)
Definition b64_char (n : N) : byte :=
  if n <? 26 then b8 (65 + n)
  else if n <? 52 then b8 (97 + (n - 26))
  else if n <? 62 then b8 (48 + (n - 52))
  else if n =? 62 then b8 43
  else b8 47.

Definition b64_index (b : byte) : option N :=
  let n := Byte.to_N b in
  if (65 <=? n) && (n <? 91) then Some (n - 65)
  else if (97 <=? n) && (n <? 123) then Some (n - 97 + 26)
  else if (48 <=? n) && (n <? 58) then Some (n - 48 + 52)
  else if n =? 43 then Some 62
  else if n =? 47 then Some 63
  else None.

Definition b64_pad : byte := b8 61.

(** [base64.b64encode] on a byte string. *)
Fixpoint b64encode (bs : bytes) : bytes :=
  match bs with
  | [] => []
  | a :: r =>
      let x := Byte.to_N a in
      match r with
      | [] => [b64_char (x / 4); b64_char ((x mod 4) * 16); b64_pad; b64_pad]
      | b :: r' =>
          let y := Byte.to_N b in
          match r' with
          | [] => [b64_char (x / 4); b64_char ((x mod 4) * 16 + y / 16);
                   b64_char ((y mod 16) * 4); b64_pad]
          | c :: r'' =>
              let z := Byte.to_N c in
              b64_char (x / 4) :: b64_char ((x mod 4) * 16 + y / 16)
              :: b64_char ((y mod 16) * 4 + z / 64) :: b64_char (z mod 64)
              :: b64encode r''
          end
      end
  end.

(** [binascii.a2b_base64] as [base64.b64decode] calls it (not strict):
    characters outside the alphabet are skipped, a pad sequence that
    completes a quad ends the input, and leftover characters of an
    incomplete quad are an error.  [acc] is the output so far. *)
Fixpoint a2b_base64 (data : bytes) (quad_pos leftchar pads : N) (acc : bytes)
  : res bytes :=
  match data with
  | [] => if quad_pos =? 0 then Ok acc else Raise ValueError
  | ch :: rest =>
      if Byte.eqb ch b64_pad then
        if (2 <=? quad_pos) && (4 <=? quad_pos + (pads + 1)) then Ok acc
        else a2b_base64 rest quad_pos leftchar
               (if 2 <=? quad_pos then pads + 1 else pads) acc
      else
        match b64_index ch with
        | None => a2b_base64 rest quad_pos leftchar pads acc
        | Some v =>
            if quad_pos =? 0 then a2b_base64 rest 1 v 0 acc
            else if quad_pos =? 1 then
              a2b_base64 rest 2 (v mod 16) 0 (acc ++ [b8 (leftchar * 4 + v / 16)])
            else if quad_pos =? 2 then
              a2b_base64 rest 3 (v mod 4) 0 (acc ++ [b8 (leftchar * 16 + v / 4)])
            else
              a2b_base64 rest 0 0 0 (acc ++ [b8 (leftchar * 64 + v)])
        end
  end.

(** [base64.b64decode(s)]: a [str] argument must be ASCII; anything that is
    neither text nor bytes is a [TypeError]. *)
Definition b64decode (v : json) : res bytes :=
  match v with
  | JStr s =>
      match ascii_encode s with
      | Ok data => a2b_base64 data 0 0 0 []
      | Raise _ => Raise ValueError
      end
  | _ => Raise TypeError
  end.

(* ===================================================================== *)
(** ** The environment: platform, files, keyring, clipboard, Qt timers    *)
(* ===================================================================== *)

(** What is fixed when the program starts.  [CryptProtectData] and
    [CryptUnprotectData] are the operating system's primitives, applied to
    the input blob and [dwFlags]; [None] is the [BOOL] result [FALSE]. *)
Record Platform : Type := {
  IS_WINDOWS : bool;
  keyring_present : bool;
  CryptProtectData : list byte -> Z -> option (list byte);
  CryptUnprotectData : list byte -> Z -> option (list byte)
}.

(** What the clipboard holds; other programs may put non-text data on it. *)
Inductive clip : Type :=
| ClipEmpty
| ClipText (s : list N)
| ClipOther (tag : N).

(** The file at [CRED_PATH], and the one at [SETTINGS_PATH], as
    [json.load] sees it. *)
Inductive file_content : Type :=
| Unparseable
| Parsed (j : json).

(** Whether the next call into the environment works or fails. *)
Inductive outcome : Type :=
| Normal
| Faulty.

(** Calls that leave the program, in the order they happen. *)
Inductive obs : Type :=
| ObsCbText (s : list N)
| ObsCbSetText (s : list N)
| ObsCbClear
| ObsOpenClipboard (ok : bool)
| ObsEmptyClipboard
| ObsCloseClipboard
| ObsTray (title : list N)
| ObsWarning (title : list N)
| ObsInformation (title : list N)
| ObsProtect (flags : Z)
| ObsUnprotect (flags : Z)
| ObsTimeout.

Record World : Type := {
  cred_file : option file_content;
  vault : gmap (list N * list N) (list N);
  clipboard : clip;
  clock : Z;
  qt_timers : list (N * Z);
  next_id : N;
  faults : list outcome;
  trace : list obs;
  settings_file : option file_content
}.

Definition set_cred_file (f : option file_content) (w : World) : World :=
  {| cred_file := f; vault := vault w; clipboard := clipboard w;
     clock := clock w; qt_timers := qt_timers w; next_id := next_id w;
     faults := faults w; trace := trace w;
     settings_file := settings_file w |}.

Definition set_vault (v : gmap (list N * list N) (list N)) (w : World) : World :=
  {| cred_file := cred_file w; vault := v; clipboard := clipboard w;
     clock := clock w; qt_timers := qt_timers w; next_id := next_id w;
     faults := faults w; trace := trace w;
     settings_file := settings_file w |}.

Definition set_clipboard (c : clip) (w : World) : World :=
  {| cred_file := cred_file w; vault := vault w; clipboard := c;
     clock := clock w; qt_timers := qt_timers w; next_id := next_id w;
     faults := faults w; trace := trace w;
     settings_file := settings_file w |}.

Definition set_clock (t : Z) (w : World) : World :=
  {| cred_file := cred_file w; vault := vault w; clipboard := clipboard w;
     clock := t; qt_timers := qt_timers w; next_id := next_id w;
     faults := faults w; trace := trace w;
     settings_file := settings_file w |}.

Definition set_qt_timers (l : list (N * Z)) (w : World) : World :=
  {| cred_file := cred_file w; vault := vault w; clipboard := clipboard w;
     clock := clock w; qt_timers := l; next_id := next_id w;
     faults := faults w; trace := trace w;
     settings_file := settings_file w |}.

Definition set_next_id (n : N) (w : World) : World :=
  {| cred_file := cred_file w; vault := vault w; clipboard := clipboard w;
     clock := clock w; qt_timers := qt_timers w; next_id := n;
     faults := faults w; trace := trace w;
     settings_file := settings_file w |}.

Definition set_faults (l : list outcome) (w : World) : World :=
  {| cred_file := cred_file w; vault := vault w; clipboard := clipboard w;
     clock := clock w; qt_timers := qt_timers w; next_id := next_id w;
     faults := l; trace := trace w;
     settings_file := settings_file w |}.

Definition set_trace (l : list obs) (w : World) : World :=
  {| cred_file := cred_file w; vault := vault w; clipboard := clipboard w;
     clock := clock w; qt_timers := qt_timers w; next_id := next_id w;
     faults := faults w; trace := l;
     settings_file := settings_file w |}.

Definition set_settings_file (f : option file_content) (w : World) : World :=
  {| cred_file := cred_file w; vault := vault w; clipboard := clipboard w;
     clock := clock w; qt_timers := qt_timers w; next_id := next_id w;
     faults := faults w; trace := trace w; settings_file := f |}.

(** The outcome of the next environment call; an exhausted script means
    that everything from here on works. *)
Definition env_outcome : M World outcome :=
  fun w => match faults w with
           | [] => (Ok Normal, w)
           | o :: r => (Ok o, set_faults r w)
           end.

Definition fallible (e : exn) : M World unit :=
  o <- env_outcome;;
  match o with
  | Normal => ret tt
  | Faulty => raise e
  end.

Definition emit (o : obs) : M World unit :=
  modify (fun w => set_trace (trace w ++ [o]) w).

(** *** Files *)

(** [os.makedirs(path, exist_ok=True)] *)
Definition ensure_dir : M World unit := fallible OSError.

(** [open(CRED_PATH, "r")] and reading it to the end. *)
Definition open_read : M World file_content :=
  fallible OSError;;;
  f <- gets cred_file;;
  match f with
  | None => raise FileNotFoundError
  | Some c => ret c
  end.

Definition json_load (c : file_content) : M World json :=
  match c with
  | Unparseable => raise JSONDecodeError
  | Parsed j => ret j
  end.

(** [open(CRED_PATH, "w")] truncates the file as soon as it succeeds. *)
Definition open_write : M World unit :=
  fallible OSError;;;
  modify (set_cred_file (Some Unparseable)).

(** [json.dump(j, f)] followed by the close of the [with] block; a failed
    write leaves the truncated or partial file behind. *)
Definition json_dump (j : json) : M World unit :=
  fallible OSError;;;
  modify (set_cred_file (Some (Parsed j))).

(** [open(SETTINGS_PATH, "w")] and [json.dump(j, f, indent=2)] on it. *)
Definition open_settings_write : M World unit :=
  fallible OSError;;;
  modify (set_settings_file (Some Unparseable)).

Definition settings_json_dump (j : json) : M World unit :=
  fallible OSError;;;
  modify (set_settings_file (Some (Parsed j))).

Definition os_path_exists : M World bool :=
  f <- gets cred_file;;
  ret (match f with Some _ => true | None => false end).

Definition os_remove : M World unit :=
  fallible OSError;;;
  f <- gets cred_file;;
  match f with
  | None => raise FileNotFoundError
  | Some _ => modify (set_cred_file None)
  end.

(** *** The keyring package *)

Definition keyring_get_password (service account : list N) : M World (option (list N)) :=
  fallible KeyringError;;;
  v <- gets vault;;
  ret (v !! (service, account)).

Definition keyring_set_password (service account password : list N) : M World unit :=
  fallible KeyringError;;;
  modify (fun w => set_vault (<[(service, account) := password]> (vault w)) w).

(** Deleting an entry that does not exist raises [PasswordDeleteError]. *)
Definition keyring_delete_password (service account : list N) : M World unit :=
  fallible KeyringError;;;
  v <- gets vault;;
  match v !! (service, account) with
  | None => raise KeyringError
  | Some _ => modify (fun w => set_vault (delete (service, account) (vault w)) w)
  end.

(** *** The Qt clipboard *)

Definition clip_text (c : clip) : list N :=
  match c with
  | ClipText s => s
  | _ => []
  end.

(** [cb.text()] *)
Definition cb_text : M World (list N) :=
  fallible RuntimeError;;;
  c <- gets clipboard;;
  emit (ObsCbText (clip_text c));;;
  ret (clip_text c).

(** [cb.setText(s)] *)
Definition cb_setText (s : list N) : M World unit :=
  fallible RuntimeError;;;
  modify (set_clipboard (ClipText s));;;
  emit (ObsCbSetText s).

(** [cb.clear()] *)
Definition cb_clear : M World unit :=
  fallible RuntimeError;;;
  modify (set_clipboard ClipEmpty);;;
  emit ObsCbClear.

(** *** user32 *)

(** [OpenClipboard(0)] returns zero while another program holds the
    clipboard open. *)
Definition user32_OpenClipboard : M World bool :=
  o <- env_outcome;;
  match o with
  | Normal => emit (ObsOpenClipboard true);;; ret true
  | Faulty => emit (ObsOpenClipboard false);;; ret false
  end.

Definition user32_EmptyClipboard : M World unit :=
  modify (set_clipboard ClipEmpty);;;
  emit ObsEmptyClipboard.

Definition user32_CloseClipboard : M World unit :=
  emit ObsCloseClipboard.

(** *** crypt32 *)

Record DATA_BLOB : Type := {
  cbData : N;
  pbData : option (list byte)
}.

(** [cbData] is a [c_uint]: ctypes keeps the low 32 bits of [len(data)]. *)
Definition _bytes_to_blob (data : list byte) : DATA_BLOB :=
  {| cbData := N.of_nat (List.length data) mod 2 ^ 32; pbData := Some data |}.

Definition _blob_to_bytes (blob : DATA_BLOB) : list byte :=
  match pbData blob with
  | Some data => if cbData blob =? 0 then [] else List.firstn (N.to_nat (cbData blob)) data
  | None => []
  end.

Definition crypt32_CryptProtectData (P : Platform) (in_blob : DATA_BLOB) (dwFlags : Z)
  : M World (option DATA_BLOB) :=
  emit (ObsProtect dwFlags);;;
  ret (option_map _bytes_to_blob (CryptProtectData P (_blob_to_bytes in_blob) dwFlags)).

Definition crypt32_CryptUnprotectData (P : Platform) (in_blob : DATA_BLOB) (dwFlags : Z)
  : M World (option DATA_BLOB) :=
  emit (ObsUnprotect dwFlags);;;
  ret (option_map _bytes_to_blob (CryptUnprotectData P (_blob_to_bytes in_blob) dwFlags)).

(** *** kernel32 *)

(** [kernel32.LocalFree(p)].  No [argtypes] are declared, so ctypes
    converts the Python integer [p] to a C [long] and raises
    [ArgumentError] when the address does not fit; on 64-bit Windows a
    [long] has 32 bits.  Where the system has put the buffer is the
    environment's choice. *)
Definition kernel32_LocalFree : M World unit := fallible ArgumentError.

(** [if blob.pbData: kernel32.LocalFree(blob.pbData)] *)
Definition free_blob (blob : DATA_BLOB) : M World unit :=
  match pbData blob with
  | Some _ => kernel32_LocalFree
  | None => ret tt
  end.

(** *** QTimer *)

(** A [QTimer] object; [timerId] is set while the timer is running.  The
    running timers of the event loop are [qt_timers]: identifier and the
    time at which the timeout is due. *)
Record QTimer : Type := {
  singleShot : bool;
  timerId : option N
}.

Definition QTimer_stop (t : QTimer) : M World QTimer :=
  match timerId t with
  | None => ret t
  | Some i =>
      modify (fun w => set_qt_timers
                         (List.filter (fun e => negb (fst e =? i)) (qt_timers w)) w);;;
      ret {| singleShot := singleShot t; timerId := None |}
  end.

(** [QTimer.start(msec)]: a running timer is stopped and restarted. *)
Definition QTimer_start (msec : Z) (t : QTimer) : M World QTimer :=
  t' <- QTimer_stop t;;
  i <- gets next_id;;
  modify (set_next_id (i + 1));;;
  modify (fun w => set_qt_timers (qt_timers w ++ [(i, (clock w + msec)%Z)]) w);;;
  ret {| singleShot := singleShot t'; timerId := Some i |}.

(** Whether the timer's timeout is due. *)
Definition QTimer_due (t : QTimer) (w : World) : bool :=
  match timerId t with
  | None => false
  | Some i =>
      List.existsb (fun e => (fst e =? i) && (snd e <=? clock w)%Z) (qt_timers w)
  end.

(* ===================================================================== *)
(** ** What app.py and app_V2.py have in common                           *)
(* ===================================================================== *)

Definition APP_NAME : list N := lit "One-Time Password (Tray)".
Definition USERNAME_LABEL : list N := lit "default".

(** [class Settings]; the fields hold what was last loaded or saved. *)
Record Settings : Type := {
  auto_clear : bool;
  auto_clear_secs : Z
}.

(** [Settings.__init__] *)
Definition Settings_init : Settings :=
  {| auto_clear := true; auto_clear_secs := 20 |}.

(** What a [PasswordDialog] hands back: the result of [exec()] and of
    [get_values()]. *)
Record dialog : Type := {
  accepted : bool;
  text : list N;
  remember_checked : bool
}.

(** The attributes of [MainWindow] that the slots read or write; [Store] is
    the [PasswordStore] of the file at hand. *)
Record MainWindow (Store : Type) : Type := {
  settings : Settings;
  store : Store;
  _last_copied_value : option (list N);
  _clear_timer : QTimer;
  chk_auto : bool;
  spin_secs : Z;
  status_lbl : list N
}.

Definition set_settings {Store} (x : Settings) (m : MainWindow Store) : MainWindow Store :=
  {| settings := x; store := store m; _last_copied_value := _last_copied_value m;
     _clear_timer := _clear_timer m; chk_auto := chk_auto m;
     spin_secs := spin_secs m; status_lbl := status_lbl m |}.

Definition set_store {Store} (x : Store) (m : MainWindow Store) : MainWindow Store :=
  {| settings := settings m; store := x; _last_copied_value := _last_copied_value m;
     _clear_timer := _clear_timer m; chk_auto := chk_auto m;
     spin_secs := spin_secs m; status_lbl := status_lbl m |}.

Definition set_last_copied_value {Store} (x : option (list N)) (m : MainWindow Store)
  : MainWindow Store :=
  {| settings := settings m; store := store m; _last_copied_value := x;
     _clear_timer := _clear_timer m; chk_auto := chk_auto m;
     spin_secs := spin_secs m; status_lbl := status_lbl m |}.

Definition set_clear_timer {Store} (x : QTimer) (m : MainWindow Store) : MainWindow Store :=
  {| settings := settings m; store := store m; _last_copied_value := _last_copied_value m;
     _clear_timer := x; chk_auto := chk_auto m;
     spin_secs := spin_secs m; status_lbl := status_lbl m |}.

Definition set_chk_auto {Store} (x : bool) (m : MainWindow Store) : MainWindow Store :=
  {| settings := settings m; store := store m; _last_copied_value := _last_copied_value m;
     _clear_timer := _clear_timer m; chk_auto := x;
     spin_secs := spin_secs m; status_lbl := status_lbl m |}.

Definition set_spin_secs {Store} (x : Z) (m : MainWindow Store) : MainWindow Store :=
  {| settings := settings m; store := store m; _last_copied_value := _last_copied_value m;
     _clear_timer := _clear_timer m; chk_auto := chk_auto m;
     spin_secs := x; status_lbl := status_lbl m |}.

Definition set_status_lbl {Store} (x : list N) (m : MainWindow Store) : MainWindow Store :=
  {| settings := settings m; store := store m; _last_copied_value := _last_copied_value m;
     _clear_timer := _clear_timer m; chk_auto := chk_auto m;
     spin_secs := spin_secs m; status_lbl := x |}.

(** An object together with the world it runs in. *)
Definition in_world {X A} (m : M World A) : M (X * World) A :=
  fun s => match m (snd s) with
           | (r, w') => (r, (fst s, w'))
           end.

Definition self_get {X A} (f : X -> A) : M (X * World) A :=
  fun s => (Ok (f (fst s)), s).

Definition self_set {X} (f : X -> X) : M (X * World) unit :=
  fun s => (Ok tt, (f (fst s), snd s)).

(** A method call on [self.store]. *)
Definition in_store {Store A} (m : M (Store * World) A) : M (MainWindow Store * World) A :=
  fun s => match m (store (fst s), snd s) with
           | (r, (st', w')) => (r, (set_store st' (fst s), w'))
           end.

(** [self._clear_timer.start(msec)] *)
Definition clear_timer_start {Store} (msec : Z) : M (MainWindow Store * World) unit :=
  t <- self_get (@_clear_timer Store);;
  t' <- in_world (QTimer_start msec t);;
  self_set (set_clear_timer t').

(** [win_clear_clipboard]: the forced flush of the Windows buffer.  app.py
    picks the definition when the module is loaded and app_V2.py tests
    [IS_WINDOWS] on each call; the calls behave alike. *)
Definition win_clear_clipboard (P : Platform) : M World bool :=
  if negb (IS_WINDOWS P) then ret false
  else
    r <- try_except
           (opened <- user32_OpenClipboard;;
            if opened then
              user32_EmptyClipboard;;;
              user32_CloseClipboard;;;
              ret (Return true)
            else ret Next)
           (fun _ => ret Next);;
    match r with
    | Return b => ret b
    | Next => ret false
    end.

(** [MainWindow._maybe_clear_clipboard], the slot of [_clear_timer.timeout]
    (app.py 348-366, app_V2.py 433-448: the same statements). *)
Definition _maybe_clear_clipboard {Store} (P : Platform) : M (MainWindow Store * World) unit :=
  try_finally
    (try_except
       (last <- self_get (@_last_copied_value Store);;
        match last with
        | None => ret tt
        | Some v =>
            t <- in_world cb_text;;
            if str_eqb t v then
              in_world cb_clear;;;
              in_world (cb_setText []);;;
              in_world cb_clear;;;
              _ <- in_world (win_clear_clipboard P);;
              in_world (emit (ObsTray (lit "Clipboard cleared")))
            else ret tt
        end)
       (fun _ => ret tt))
    (self_set (set_last_copied_value None)).

(** The last statements of [copy_password] (app.py 338-346, app_V2.py
    423-431: the same statements), for the password [pw] obtained above
    them. *)
Definition copy_to_clipboard {Store} (pw : list N) : M (MainWindow Store * World) unit :=
  in_world (cb_setText pw);;;
  self_set (set_last_copied_value (Some pw));;;
  in_world (emit (ObsTray (lit "Copied")));;;
  checked <- self_get (@chk_auto Store);;
  if checked then
    v <- self_get (@spin_secs Store);;
    let secs := Z.max 1 v in
    clear_timer_start (secs * 1000)%Z
  else ret tt.

(** [Settings.save] *)
Definition Settings_save (s : Settings) : M World unit :=
  try_except
    (ensure_dir;;;
     open_settings_write;;;
     settings_json_dump
       (JDict [(lit "auto_clear", JBool (auto_clear s));
               (lit "auto_clear_secs", JNum (auto_clear_secs s))]))
    (fun _ => ret tt).

(** [MainWindow.save_settings] *)
Definition save_settings {Store} : M (MainWindow Store * World) unit :=
  checked <- self_get (@chk_auto Store);;
  v <- self_get (@spin_secs Store);;
  self_set (set_settings {| auto_clear := checked; auto_clear_secs := v |});;;
  s <- self_get (@settings Store);;
  in_world (Settings_save s);;;
  in_world (emit (ObsInformation (lit "Saved"))).

(** A [QSpinBox] with [setRange(3, 300)] keeps its value in the range. *)
Definition spin_clamp (v : Z) : Z := Z.max 3 (Z.min 300 v).

(** [QSpinBox.setValue] takes a C [int]: the binding raises
    [OverflowError] for a Python integer outside its range. *)
Definition fits_c_int (v : Z) : bool := (- 2 ^ 31 <=? v)%Z && (v <? 2 ^ 31)%Z.

Definition QSpinBox_setValue (v : Z) : res Z :=
  if fits_c_int v then Ok (spin_clamp v) else Raise OverflowError.

(** What can happen to a running application. *)
Inductive event : Type :=
| Click_copy (dlg : dialog)
| Click_change (dlg : dialog)
| Click_clear_saved
| Click_save_settings
| Toggle_auto (b : bool)
| Spin_secs (v : Z)
| External_clipboard (c : clip)
| Elapse (dt : Z)
| Deliver_timeout.

Definition is_copy (e : event) : bool :=
  match e with
  | Click_copy _ => true
  | _ => false
  end.

(** Qt delivering the timeout of [_clear_timer]: a single-shot timer is
    stopped, then the signal is emitted and the connected slot runs. *)
Definition deliver_timeout {Store} (P : Platform) : M (MainWindow Store * World) unit :=
  t <- self_get (@_clear_timer Store);;
  due <- (fun s => (Ok (QTimer_due t (snd s)), s));;
  if due then
    (if singleShot t then
       t' <- in_world (QTimer_stop t);;
       self_set (set_clear_timer t')
     else ret tt);;;
    in_world (emit ObsTimeout);;;
    _maybe_clear_clipboard P
  else ret tt.

(** One turn of the event loop.  An exception that escapes a slot is
    reported by the binding and the loop goes on with the state as the slot
    left it. *)
Definition loop_step {Store} (P : Platform)
  (copy_password change_password : dialog -> M (MainWindow Store * World) unit)
  (clear_saved_password : M (MainWindow Store * World) unit)
  (e : event) (s : MainWindow Store * World) : MainWindow Store * World :=
  match e with
  | Click_copy dlg => snd (copy_password dlg s)
  | Click_change dlg => snd (change_password dlg s)
  | Click_clear_saved => snd (clear_saved_password s)
  | Click_save_settings => snd (save_settings s)
  | Toggle_auto b => (set_chk_auto b (fst s), snd s)
  | Spin_secs v => (set_spin_secs (spin_clamp v) (fst s), snd s)
  | External_clipboard c => (fst s, set_clipboard c (snd s))
  | Elapse dt => (fst s, set_clock (clock (snd s) + Z.max 0 dt)%Z (snd s))
  | Deliver_timeout => snd (deliver_timeout P s)
  end.

Definition loop_run {Store} (P : Platform)
  (copy_password change_password : dialog -> M (MainWindow Store * World) unit)
  (clear_saved_password : M (MainWindow Store * World) unit)
  (evs : list event) (s : MainWindow Store * World) : MainWindow Store * World :=
  List.fold_left (fun acc e => loop_step P copy_password change_password clear_saved_password e acc)
    evs s.

(* ===================================================================== *)
(** ** app_V2.py: the store protected by DPAPI, base64 elsewhere          *)
(* ===================================================================== *)

Module app_V2.

Definition CRYPTPROTECT_UI_FORBIDDEN : Z := 0x01.

(** [dpapi_encrypt]: the Windows definition and the fallback. *)
Definition dpapi_encrypt (P : Platform) (plaintext : list N) : M World (list N) :=
  if IS_WINDOWS P then
    raw <- lift_res (utf8_encode plaintext);;
    let in_blob := _bytes_to_blob raw in
    ok <- crypt32_CryptProtectData P in_blob CRYPTPROTECT_UI_FORBIDDEN;;
    match ok with
    | None => raise OSError
    | Some out_blob =>
        enc <- try_finally (ret (_blob_to_bytes out_blob)) (free_blob out_blob);;
        lift_res (ascii_decode (b64encode enc))
    end
  else
    raw <- lift_res (utf8_encode plaintext);;
    lift_res (ascii_decode (b64encode raw)).

(** [dpapi_decrypt]; the argument is whatever the record held. *)
Definition dpapi_decrypt (P : Platform) (b64 : json) : M World (option (list N)) :=
  if IS_WINDOWS P then
    r <- try_except
           (enc <- lift_res (b64decode b64);; ret (Some enc))
           (fun _ => ret None);;
    match r with
    | None => ret None
    | Some enc =>
        let in_blob := _bytes_to_blob enc in
        ok <- crypt32_CryptUnprotectData P in_blob 0;;
        match ok with
        | None => ret None
        | Some out_blob =>
            dec <- try_finally (ret (_blob_to_bytes out_blob)) (free_blob out_blob);;
            try_except
              (s <- lift_res (utf8_decode dec);; ret (Some s))
              (fun _ => ret None)
        end
    end
  else
    try_except
      (raw <- lift_res (b64decode b64);;
       s <- lift_res (utf8_decode raw);;
       ret (Some s))
      (fun _ => ret None).

Record PasswordStore : Type := {
  label : list N;
  _in_memory : option (list N)
}.

Definition set_in_memory (x : option (list N)) (st : PasswordStore) : PasswordStore :=
  {| label := label st; _in_memory := x |}.

(** [PasswordStore.__init__] *)
Definition PasswordStore_init (lbl : list N) : PasswordStore :=
  {| label := lbl; _in_memory := None |}.

(** [PasswordStore.get] *)
Definition PasswordStore_get (P : Platform) : M (PasswordStore * World) (option (list N)) :=
  mem <- self_get _in_memory;;
  if truthy_opt mem then ret mem
  else
    r <- try_except
           (f <- in_world open_read;;
            data <- in_world (json_load f);;
            v <- lift_res (py_get data (lit "dpapi"));;
            let enc := py_or v (JStr []) in
            if negb (truthy enc) then ret (Return None)
            else
              pw <- in_world (dpapi_decrypt P enc);;
              if truthy_opt pw then
                self_set (set_in_memory pw);;;
                ret (Return pw)
              else ret Next)
           (fun _ => ret Next);;
    match r with
    | Return v => ret v
    | Next => ret None
    end.

(** [PasswordStore.set] *)
Definition PasswordStore_set (P : Platform) (password : list N) (remember_device : bool)
  : M (PasswordStore * World) unit :=
  self_set (set_in_memory (Some password));;;
  if remember_device then
    try_except
      (in_world ensure_dir;;;
       enc <- in_world (dpapi_encrypt P password);;
       lbl <- self_get label;;
       in_world open_write;;;
       in_world (json_dump (JDict [(lit "label", JStr lbl); (lit "dpapi", JStr enc)])))
      (fun _ => ret tt)
  else ret tt.

(** [PasswordStore.clear_device_store] *)
Definition PasswordStore_clear_device_store : M (PasswordStore * World) unit :=
  try_except
    (present <- in_world os_path_exists;;
     if present then in_world os_remove else ret tt)
    (fun _ => ret tt).

(** [PasswordStore.clear_memory] *)
Definition PasswordStore_clear_memory : M (PasswordStore * World) unit :=
  self_set (set_in_memory None).

Definition STATUS_STORED : list N :=
  lit "Password is stored. You can copy it any time from here or the tray menu.".
Definition STATUS_NONE : list N :=
  lit "No password saved yet. Click " ++ [0x201C] ++ lit "Set / Change password"
  ++ [0x201D] ++ lit " to add one.".

(** [MainWindow.refresh_status] *)
Definition refresh_status (P : Platform) : M (MainWindow PasswordStore * World) unit :=
  r <- in_store (PasswordStore_get P);;
  let has := match r with Some _ => true | None => false end in
  if has then self_set (set_status_lbl STATUS_STORED)
  else self_set (set_status_lbl STATUS_NONE).

(** [MainWindow.change_password] *)
Definition change_password (P : Platform) (dlg : dialog)
  : M (MainWindow PasswordStore * World) unit :=
  if accepted dlg then
    let pw := text dlg in
    let remember := remember_checked dlg in
    if negb (truthy (JStr pw)) then
      in_world (emit (ObsWarning (lit "Password required")))
    else
      remember' <- (if negb (IS_WINDOWS P) && remember then
                      in_world (emit (ObsInformation (lit "Note")));;;
                      ret false
                    else ret remember);;
      in_store (PasswordStore_set P pw remember');;;
      refresh_status P;;;
      in_world (emit (ObsTray (lit "Saved")))
  else ret tt.

(** [MainWindow.clear_saved_password] *)
Definition clear_saved_password (P : Platform) : M (MainWindow PasswordStore * World) unit :=
  in_store PasswordStore_clear_device_store;;;
  in_store PasswordStore_clear_memory;;;
  refresh_status P;;;
  in_world (emit (ObsTray (lit "Cleared"))).

(** [MainWindow.copy_password] *)
Definition copy_password (P : Platform) (dlg : dialog)
  : M (MainWindow PasswordStore * World) unit :=
  pw0 <- in_store (PasswordStore_get P);;
  if negb (truthy_opt pw0) then
    if negb (accepted dlg) then ret tt
    else
      let pw := text dlg in
      let remember := remember_checked dlg in
      if negb (truthy (JStr pw)) then
        in_world (emit (ObsWarning (lit "Password required")))
      else
        remember' <- (if negb (IS_WINDOWS P) && remember then
                        in_world (emit (ObsInformation (lit "Note")));;;
                        ret false
                      else ret remember);;
        in_store (PasswordStore_set P pw remember');;;
        refresh_status P;;;
        copy_to_clipboard pw
  else
    copy_to_clipboard (match pw0 with Some pw => pw | None => [] end).

(** [MainWindow.__init__], as far as the attributes above go; [loaded] is
    what [Settings.load] found.  [spin_secs.setValue] comes before anything
    that touches the world, and an exception it raises leaves [__init__]. *)
Definition MainWindow_init (P : Platform) (loaded : Settings)
  : M World (MainWindow PasswordStore) :=
  fun w =>
    match QSpinBox_setValue (auto_clear_secs loaded) with
    | Raise e => (Raise e, w)
    | Ok spin =>
        let self :=
          {| settings := loaded;
             store := PasswordStore_init USERNAME_LABEL;
             _last_copied_value := None;
             _clear_timer := {| singleShot := true; timerId := None |};
             chk_auto := auto_clear loaded;
             spin_secs := spin;
             status_lbl := [] |} in
        match refresh_status P (self, w) with
        | (Ok _, (self', w')) => (Ok self', w')
        | (Raise e, (self', w')) => (Raise e, w')
        end
    end.

Definition step (P : Platform) : event -> MainWindow PasswordStore * World
                                 -> MainWindow PasswordStore * World :=
  loop_step P (copy_password P) (change_password P) (clear_saved_password P).

Definition run (P : Platform) : list event -> MainWindow PasswordStore * World
                                -> MainWindow PasswordStore * World :=
  loop_run P (copy_password P) (change_password P) (clear_saved_password P).

End app_V2.

(* ===================================================================== *)
(** ** app.py: the store kept in the keyring                              *)
(* ===================================================================== *)

Module app.

Definition SERVICE_NAME : list N := lit "NESearchTool_PasswordOnly".

Record PasswordStore : Type := {
  service : list N;
  account : list N;
  _in_memory : option (list N)
}.

Definition set_in_memory (x : option (list N)) (st : PasswordStore) : PasswordStore :=
  {| service := service st; account := account st; _in_memory := x |}.

(** [PasswordStore.__init__] *)
Definition PasswordStore_init (svc acc : list N) : PasswordStore :=
  {| service := svc; account := acc; _in_memory := None |}.

(** [PasswordStore.get] *)
Definition PasswordStore_get (P : Platform) : M (PasswordStore * World) (option (list N)) :=
  mem <- self_get _in_memory;;
  if truthy_opt mem then ret mem
  else
    r <- (if keyring_present P then
            try_except
              (svc <- self_get service;;
               acc <- self_get account;;
               pw <- in_world (keyring_get_password svc acc);;
               if truthy_opt pw then
                 self_set (set_in_memory pw);;;
                 ret (Return pw)
               else ret Next)
              (fun _ => ret Next)
          else ret Next);;
    match r with
    | Return v => ret v
    | Next => ret None
    end.

(** [PasswordStore.set] *)
Definition PasswordStore_set (P : Platform) (password : list N) (remember_device : bool)
  : M (PasswordStore * World) unit :=
  self_set (set_in_memory (Some password));;;
  if remember_device && keyring_present P then
    try_except
      (svc <- self_get service;;
       acc <- self_get account;;
       in_world (keyring_set_password svc acc password))
      (fun _ => ret tt)
  else ret tt.

(** [PasswordStore.clear_device_store] *)
Definition PasswordStore_clear_device_store (P : Platform) : M (PasswordStore * World) unit :=
  if keyring_present P then
    try_except
      (svc <- self_get service;;
       acc <- self_get account;;
       in_world (keyring_delete_password svc acc))
      (fun _ => ret tt)
  else ret tt.

(** [PasswordStore.clear_memory] *)
Definition PasswordStore_clear_memory : M (PasswordStore * World) unit :=
  self_set (set_in_memory None).

Definition STATUS_STORED : list N :=
  lit "Password is stored. You can copy it any time from here or the tray menu.".
Definition STATUS_SESSION : list N :=
  lit "Password is stored for this session (secure store not available).".
Definition STATUS_NONE : list N :=
  lit "No password saved yet. Click " ++ [0x201C] ++ lit "Set / Change password"
  ++ [0x201D] ++ lit " to add one.".

(** [MainWindow.refresh_status] *)
Definition refresh_status (P : Platform) : M (MainWindow PasswordStore * World) unit :=
  r <- in_store (PasswordStore_get P);;
  let has := match r with Some _ => true | None => false end in
  if has then
    if keyring_present P then self_set (set_status_lbl STATUS_STORED)
    else self_set (set_status_lbl STATUS_SESSION)
  else self_set (set_status_lbl STATUS_NONE).

(** [MainWindow.change_password] *)
Definition change_password (P : Platform) (dlg : dialog)
  : M (MainWindow PasswordStore * World) unit :=
  if accepted dlg then
    let pw := text dlg in
    let remember := remember_checked dlg in
    if negb (truthy (JStr pw)) then
      in_world (emit (ObsWarning (lit "Password required")))
    else
      (if negb remember && keyring_present P then
         in_store (PasswordStore_clear_device_store P)
       else ret tt);;;
      in_store (PasswordStore_set P pw remember);;;
      refresh_status P;;;
      in_world (emit (ObsTray (lit "Saved")))
  else ret tt.

(** [MainWindow.clear_saved_password] *)
Definition clear_saved_password (P : Platform) : M (MainWindow PasswordStore * World) unit :=
  in_store (PasswordStore_clear_device_store P);;;
  in_store PasswordStore_clear_memory;;;
  refresh_status P;;;
  in_world (emit (ObsTray (lit "Cleared"))).

(** [MainWindow.copy_password] *)
Definition copy_password (P : Platform) (dlg : dialog)
  : M (MainWindow PasswordStore * World) unit :=
  pw0 <- in_store (PasswordStore_get P);;
  if negb (truthy_opt pw0) then
    if negb (accepted dlg) then ret tt
    else
      let pw := text dlg in
      let remember := remember_checked dlg in
      if negb (truthy (JStr pw)) then
        in_world (emit (ObsWarning (lit "Password required")))
      else
        (if negb remember && keyring_present P then
           in_store (PasswordStore_clear_device_store P)
         else ret tt);;;
        in_store (PasswordStore_set P pw remember);;;
        refresh_status P;;;
        copy_to_clipboard pw
  else
    copy_to_clipboard (match pw0 with Some pw => pw | None => [] end).

(** [MainWindow.__init__], as far as the attributes above go; [loaded] is
    what [Settings.load] found.  [spin_secs.setValue] comes before anything
    that touches the world, and an exception it raises leaves [__init__]. *)
Definition MainWindow_init (P : Platform) (loaded : Settings)
  : M World (MainWindow PasswordStore) :=
  fun w =>
    match QSpinBox_setValue (auto_clear_secs loaded) with
    | Raise e => (Raise e, w)
    | Ok spin =>
        let self :=
          {| settings := loaded;
             store := PasswordStore_init SERVICE_NAME USERNAME_LABEL;
             _last_copied_value := None;
             _clear_timer := {| singleShot := true; timerId := None |};
             chk_auto := auto_clear loaded;
             spin_secs := spin;
             status_lbl := [] |} in
        match refresh_status P (self, w) with
        | (Ok _, (self', w')) => (Ok self', w')
        | (Raise e, (self', w')) => (Raise e, w')
        end
    end.

Definition step (P : Platform) : event -> MainWindow PasswordStore * World
                                 -> MainWindow PasswordStore * World :=
  loop_step P (copy_password P) (change_password P) (clear_saved_password P).

Definition run (P : Platform) : list event -> MainWindow PasswordStore * World
                                -> MainWindow PasswordStore * World :=
  loop_run P (copy_password P) (change_password P) (clear_saved_password P).

End app.

(* ===================================================================== *)
(** ** Concrete platforms and worlds                                      *)
(* ===================================================================== *)

(** A stand-in for DPAPI: the blob is tagged with the login session and
    the payload is masked.  A blob from another session, or one with no
    tag, does not unprotect. *)
Definition mask (b : byte) : byte := b8 (N.lxor 0x5A (Byte.to_N b)).

Definition session_protect (tag : byte) (data : list byte) (dwFlags : Z)
  : option (list byte) :=
  Some (tag :: List.map mask data).

Definition session_unprotect (tag : byte) (blob : list byte) (dwFlags : Z)
  : option (list byte) :=
  match blob with
  | t :: r => if Byte.eqb t tag then Some (List.map mask r) else None
  | [] => None
  end.

Definition windows_pc : Platform :=
  {| IS_WINDOWS := true;
     keyring_present := true;
     CryptProtectData := session_protect "A"%byte;
     CryptUnprotectData := session_unprotect "A"%byte |}.

(** The same machine with another user logged in. *)
Definition windows_pc_other_user : Platform :=
  {| IS_WINDOWS := true;
     keyring_present := true;
     CryptProtectData := session_protect "B"%byte;
     CryptUnprotectData := session_unprotect "B"%byte |}.

Definition linux_pc : Platform :=
  {| IS_WINDOWS := false;
     keyring_present := true;
     CryptProtectData := fun _ _ => None;
     CryptUnprotectData := fun _ _ => None |}.

(** No record, empty keyring and clipboard, no timer, nothing fails. *)
Definition quiet_world : World :=
  {| cred_file := None;
     vault := ∅;
     clipboard := ClipEmpty;
     clock := 0;
     qt_timers := [];
     next_id := 0;
     faults := [];
     trace := [];
     settings_file := None |}.

(* ===================================================================== *)
(** ** Vocabulary of the statements                                       *)
(* ===================================================================== *)

(** A Unicode scalar value: a code point that is not a surrogate. *)
Definition is_scalar (c : N) : bool := (c <? 0x110000) && negb (is_surrogate c).

(** The strings that [encode("utf-8")] accepts. *)
Definition encodable (s : list N) : bool := List.forallb is_scalar s.







(** A computation that returns normally from every state. *)
Definition never_raises {S A} (m : M S A) : Prop :=
  forall s, exists a s', m s = (Ok a, s').

(** A computation that leaves the observation [f] of the state as it was,
    whether it returns or raises. *)
Definition preserving {S T A} (f : S -> T) (m : M S A) : Prop :=
  forall s, f (snd (m s)) = f s.

(** The next [n] calls into the environment work. *)
Definition next_ok (n : nat) (w : World) : bool :=
  List.forallb (fun o => match o with Normal => true | Faulty => false end)
    (List.firstn n (faults w)).

(** [pw] is what [dpapi_decrypt] makes of the record in [w]. *)
Definition decrypted_from (P : Platform) (w : World) (pw : list N) : Prop :=
  exists (j v : json) (w1 w2 : World),
    cred_file w = Some (Parsed j)
    /\ py_get j (lit "dpapi") = Ok v
    /\ truthy (py_or v (JStr [])) = true
    /\ app_V2.dpapi_decrypt P (py_or v (JStr [])) w1 = (Ok (Some pw), w2).

Definition is_warning (o : obs) : bool :=
  match o with
  | ObsWarning _ => true
  | _ => false
  end.

(** The message boxes that report a failure, in the order shown. *)
Definition warnings (w : World) : list obs := List.filter is_warning (trace w).

(** The record that [PasswordStore.set] of app_V2.py writes for the
    encrypted text [enc]. *)
Definition record_of (enc : list N) : file_content :=
  Parsed (JDict [(lit "label", JStr USERNAME_LABEL); (lit "dpapi", JStr enc)]).

(** Worlds in which the password [old] was remembered earlier: under DPAPI
    on [windows_pc], base64 on [linux_pc], and in the keyring. *)
Definition windows_world_old : World :=
  set_cred_file (Some (record_of (lit "QTU2Pg=="))) quiet_world.

Definition linux_world_old : World :=
  set_cred_file (Some (record_of (lit "b2xk"))) quiet_world.

Definition keyring_world_old : World :=
  set_vault (<[(app.SERVICE_NAME, USERNAME_LABEL) := lit "old"]> ∅) quiet_world.

(** A window right after its construction, before [refresh_status]. *)
Definition new_window {Store} (st : Store) : MainWindow Store :=
  {| settings := Settings_init;
     store := st;
     _last_copied_value := None;
     _clear_timer := {| singleShot := true; timerId := None |};
     chk_auto := true;
     spin_secs := 20;
     status_lbl := [] |}.

(** The observations of [win_clear_clipboard], given how [OpenClipboard]
    fares. *)
Definition flush_trace (P : Platform) (o : outcome) : list obs :=
  if IS_WINDOWS P then
    match o with
    | Normal => [ObsOpenClipboard true; ObsEmptyClipboard; ObsCloseClipboard]
    | Faulty => [ObsOpenClipboard false]
    end
  else [].

(** The clipboard manager of the specification, read off the window and
    the event loop: [Idle] is no snapshot and no running timer, [Armed] is
    a snapshot with exactly the window's timer running. *)
Definition idle {Store} (s : MainWindow Store * World) : Prop :=
  _last_copied_value (fst s) = None
  /\ timerId (_clear_timer (fst s)) = None
  /\ qt_timers (snd s) = [].

Definition armed {Store} (v : list N) (i : N) (due : Z) (s : MainWindow Store * World) : Prop :=
  _last_copied_value (fst s) = Some v
  /\ timerId (_clear_timer (fst s)) = Some i
  /\ qt_timers (snd s) = [(i, due)].

(** What holds of the timer in every reachable state: it is single-shot,
    it is the only one the event loop knows, and identifiers are fresh. *)
Definition timer_inv {Store} (s : MainWindow Store * World) : Prop :=
  singleShot (_clear_timer (fst s)) = true
  /\ match timerId (_clear_timer (fst s)) with
     | None => qt_timers (snd s) = []
     | Some i => (exists due, qt_timers (snd s) = [(i, due)]) /\ i < next_id (snd s)
     end.

(** The part of the state that decides when the timer fires and what the
    slot compares the clipboard with. *)
Definition clear_plan {Store} (s : MainWindow Store * World)
  : option (list N) * QTimer * list (N * Z) * N :=
  (_last_copied_value (fst s), _clear_timer (fst s), qt_timers (snd s), next_id (snd s)).

(** The manager between two copies: the timer is single-shot, [n] is the
    next timer identifier, and the manager is either armed for [v] with
    timer [i] due at [due], or idle. *)
Definition armed_or_idle {Store} (v : list N) (i : N) (due : Z) (n : N)
  (s : MainWindow Store * World) : Prop :=
  singleShot (_clear_timer (fst s)) = true
  /\ next_id (snd s) = n
  /\ (armed v i due s \/ idle s).

(** No event of the list is a click on "Copy password". *)
Definition no_copy (evs : list event) : bool :=
  List.forallb (fun e => negb (is_copy e)) evs.

(** A computation that keeps the property [I] of the state, whether it
    returns or raises. *)
Definition keeps {S A} (I : S -> Prop) (m : M S A) : Prop :=
  forall s, I s -> I (snd (m s)).

(** What holds of the window in every state the application reaches: the
    timer invariant, a spin box within the range given to [setRange], and
    a snapshot whenever the timer is running. *)
Definition window_inv {Store} (s : MainWindow Store * World) : Prop :=
  timer_inv s
  /\ (3 <= spin_secs (fst s) <= 300)%Z
  /\ (timerId (_clear_timer (fst s)) <> None -> _last_copied_value (fst s) <> None).

(** A record from which [PasswordStore.get] of app_V2.py gets no
    password on the platform [P]: none at all, one that is not JSON, one
    without a usable ["dpapi"] entry, or one that [dpapi_decrypt] cannot
    turn into a non-empty string. *)
Definition unreadable (P : Platform) (f : option file_content) : Prop :=
  match f with
  | None => True
  | Some Unparseable => True
  | Some (Parsed j) =>
      match py_get j (lit "dpapi") with
      | Raise _ => True
      | Ok v =>
          truthy (py_or v (JStr [])) = false
          \/ forall w pw, fst (app_V2.dpapi_decrypt P (py_or v (JStr [])) w) = Ok (Some pw)
                          -> pw = []
      end
  end.

(* ===================================================================== *)
(** ** Theorems                                                          *)
(* ===================================================================== *)


Ltac Zify.zify_post_hook ::= Z.to_euclidean_division_equations.

Arguments b8 : simpl never.
Arguments Byte.to_N : simpl never.





Ltac cmp_solve :=
  repeat match goal with
         | |- context [?a <? ?b] =>
             first [ rewrite (proj2 (N.ltb_lt a b)) by lia
                   | rewrite (proj2 (N.ltb_ge a b)) by lia ]
         | |- context [?a <=? ?b] =>
             first [ rewrite (proj2 (N.leb_le a b)) by lia
                   | rewrite (proj2 (N.leb_gt a b)) by lia ]
         | |- context [?a =? ?b] =>
             first [ rewrite (proj2 (N.eqb_eq a b)) by lia
                   | rewrite (proj2 (N.eqb_neq a b)) by lia ]
         end.







Lemma utf8_encode_cp_Ok (c : N) (bs : list byte) :
  utf8_encode_cp c = Ok bs -> is_scalar c = true.
Proof.
  unfold is_scalar, utf8_encode_cp, is_surrogate.
  destruct (N.ltb_spec c 0x80); [intros _; cmp_solve; reflexivity|].
  destruct (N.ltb_spec c 0x800); [intros _; cmp_solve; reflexivity|].
  destruct (N.ltb_spec c 0x10000).
  { destruct ((0xD800 <=? c) && (c <=? 0xDFFF)); [discriminate|].
    intros _. cmp_solve. reflexivity. }
  destruct (N.ltb_spec c 0x110000); [|discriminate].
  intros _. cmp_solve. reflexivity.
Qed.


Lemma utf8_encode_Ok_encodable (s : list N) (bs : list byte) :
  utf8_encode s = Ok bs -> encodable s = true.
Proof.
  revert bs. induction s as [|c r IH]; intros bs; cbn [encodable List.forallb utf8_encode].
  - reflexivity.
  - destruct (utf8_encode_cp c) as [b|] eqn:Ec; [|discriminate].
    destruct (utf8_encode r) as [br|] eqn:Er; [|discriminate].
    intros _. apply andb_true_intro. split;
      [exact (utf8_encode_cp_Ok _ Ec) | exact (IH _ eq_refl)].
Qed.







Lemma b64_index_pad : b64_index b64_pad = None.
Proof. reflexivity. Qed.



(** Unfolding of the monad and of the environment's primitives. *)
Ltac mred :=
  cbv beta iota zeta delta
    [bind ret raise gets modify lift_res try_except try_finally zoom
     in_world self_get self_set in_store emit fallible env_outcome
     ensure_dir open_read json_load open_write json_dump os_path_exists os_remove
     open_settings_write settings_json_dump kernel32_LocalFree
     keyring_get_password keyring_set_password keyring_delete_password
     cb_text cb_setText cb_clear
     user32_OpenClipboard user32_EmptyClipboard user32_CloseClipboard
     crypt32_CryptProtectData crypt32_CryptUnprotectData
     fst snd].











Arguments app_V2.dpapi_encrypt : simpl never.
Arguments app_V2.dpapi_decrypt : simpl never.



Ltac v2_unfold :=
  unfold app_V2.PasswordStore_get, app_V2.PasswordStore_set,
    app_V2.PasswordStore_clear_device_store, app_V2.PasswordStore_clear_memory,
    app_V2.PasswordStore_init.


(** *** Computations that never raise *)

Lemma nr_ret {S A} (a : A) : never_raises (@ret S A a).
Proof. intros s. now exists a, s. Qed.

Lemma nr_gets {S A} (f : S -> A) : never_raises (gets f).
Proof. intros s. now exists (f s), s. Qed.

Lemma nr_modify {S} (f : S -> S) : never_raises (modify f).
Proof. intros s. now exists tt, (f s). Qed.

Lemma nr_self_get {X A} (f : X -> A) : never_raises (self_get f).
Proof. intros s. now exists (f (fst s)), s. Qed.

Lemma nr_self_set {X} (f : X -> X) : never_raises (self_set f).
Proof. intros s. now exists tt, (f (fst s), snd s). Qed.

Lemma nr_bind {S A B} (m : M S A) (k : A -> M S B) :
  never_raises m -> (forall a, never_raises (k a)) -> never_raises (bind m k).
Proof.
  intros Hm Hk s. unfold bind. destruct (Hm s) as (a & s' & ->). apply Hk.
Qed.

Lemma nr_try_except {S A} (m : M S A) (h : exn -> M S A) :
  (forall e, never_raises (h e)) -> never_raises (try_except m h).
Proof.
  intros Hh s. unfold try_except. destruct (m s) as [[a|e] s'].
  - now exists a, s'.
  - apply Hh.
Qed.

Lemma nr_try_finally {S A} (m : M S A) (fin : M S unit) :
  never_raises m -> never_raises fin -> never_raises (try_finally m fin).
Proof.
  intros Hm Hf s. unfold try_finally. destruct (Hm s) as (a & s' & ->).
  destruct (Hf s') as ([] & s'' & ->). now exists a, s''.
Qed.

Lemma nr_in_world {X A} (m : M World A) :
  never_raises m -> never_raises (@in_world X A m).
Proof.
  intros Hm s. unfold in_world. destruct (Hm (snd s)) as (a & w' & ->).
  now exists a, (fst s, w').
Qed.

Lemma nr_in_store {Store A} (m : M (Store * World) A) :
  never_raises m -> never_raises (in_store m).
Proof.
  intros Hm s. unfold in_store. destruct (Hm (store (fst s), snd s)) as (a & [st' w'] & ->).
  now exists a, (set_store st' (fst s), w').
Qed.

Lemma nr_emit (o : obs) : never_raises (emit o).
Proof. apply nr_modify. Qed.

Create HintDb nr discriminated.
#[export] Hint Resolve nr_ret nr_gets nr_modify nr_self_get nr_self_set nr_emit : nr.
#[export] Hint Resolve nr_bind nr_try_except nr_try_finally nr_in_world nr_in_store : nr.

(** Splits the conditionals of a goal [never_raises _] and closes the
    branches with the lemmas above. *)
Ltac nr_tac :=
  repeat first
    [ progress intros
    | progress cbv zeta
    | solve [auto with nr]
    | match goal with
      | |- never_raises (if ?b then _ else _) => destruct b
      | |- never_raises (match ?x with _ => _ end) => destruct x
      end
    | apply nr_bind
    | apply nr_try_except
    | apply nr_try_finally
    | apply nr_in_world
    | apply nr_in_store ].

Lemma nr_win_clear_clipboard (P : Platform) : never_raises (win_clear_clipboard P).
Proof. unfold win_clear_clipboard. nr_tac. Qed.

Lemma nr_maybe_clear_clipboard {Store} (P : Platform) :
  never_raises (@_maybe_clear_clipboard Store P).
Proof. unfold _maybe_clear_clipboard. nr_tac. Qed.

Lemma nr_V2_get (P : Platform) : never_raises (app_V2.PasswordStore_get P).
Proof. unfold app_V2.PasswordStore_get. nr_tac. Qed.

Lemma nr_V2_set (P : Platform) (s : list N) (remember : bool) :
  never_raises (app_V2.PasswordStore_set P s remember).
Proof. unfold app_V2.PasswordStore_set. nr_tac. Qed.

Lemma nr_V2_clear_device_store : never_raises app_V2.PasswordStore_clear_device_store.
Proof. unfold app_V2.PasswordStore_clear_device_store. nr_tac. Qed.

Lemma nr_V2_refresh_status (P : Platform) : never_raises (app_V2.refresh_status P).
Proof. unfold app_V2.refresh_status. pose proof (nr_V2_get P). nr_tac. Qed.

Lemma nr_V2_change_password (P : Platform) (dlg : dialog) :
  never_raises (app_V2.change_password P dlg).
Proof.
  unfold app_V2.change_password.
  pose proof (nr_V2_set P). pose proof (nr_V2_refresh_status P). nr_tac.
Qed.

Lemma nr_V1_get (P : Platform) : never_raises (app.PasswordStore_get P).
Proof. unfold app.PasswordStore_get. nr_tac. Qed.

Lemma nr_V1_set (P : Platform) (s : list N) (remember : bool) :
  never_raises (app.PasswordStore_set P s remember).
Proof. unfold app.PasswordStore_set. nr_tac. Qed.

Lemma nr_V1_clear_device_store (P : Platform) :
  never_raises (app.PasswordStore_clear_device_store P).
Proof. unfold app.PasswordStore_clear_device_store. nr_tac. Qed.

Lemma nr_V1_refresh_status (P : Platform) : never_raises (app.refresh_status P).
Proof. unfold app.refresh_status. pose proof (nr_V1_get P). nr_tac. Qed.

Lemma nr_V1_change_password (P : Platform) (dlg : dialog) :
  never_raises (app.change_password P dlg).
Proof.
  unfold app.change_password.
  pose proof (nr_V1_set P). pose proof (nr_V1_refresh_status P).
  pose proof (nr_V1_clear_device_store P). nr_tac.
Qed.

(** *** Computations that preserve part of the state *)

Lemma pres_ret {S T A} (f : S -> T) (a : A) : preserving f (ret a).
Proof. now intros s. Qed.

Lemma pres_raise {S T A} (f : S -> T) (e : exn) : preserving f (@raise S A e).
Proof. now intros s. Qed.

Lemma pres_lift_res {S T A} (f : S -> T) (r : res A) : preserving f (lift_res r).
Proof. now intros s. Qed.

Lemma pres_gets {S T A} (f : S -> T) (g : S -> A) : preserving f (gets g).
Proof. now intros s. Qed.

Lemma pres_self_get {X T A} (f : X * World -> T) (g : X -> A) : preserving f (self_get g).
Proof. now intros s. Qed.

Lemma pres_modify {S T} (f : S -> T) (g : S -> S) :
  (forall s, f (g s) = f s) -> preserving f (modify g).
Proof. intros H s. apply H. Qed.

Lemma pres_self_set {X T} (f : X * World -> T) (g : X -> X) :
  (forall x w, f (g x, w) = f (x, w)) -> preserving f (self_set g).
Proof. intros H [x w]. apply H. Qed.

Lemma pres_bind {S T A B} (f : S -> T) (m : M S A) (k : A -> M S B) :
  preserving f m -> (forall a, preserving f (k a)) -> preserving f (bind m k).
Proof.
  intros Hm Hk s. unfold bind. specialize (Hm s).
  destruct (m s) as [[a|e] s']; cbn [snd] in *; [|exact Hm].
  now rewrite Hk.
Qed.

Lemma pres_try_except {S T A} (f : S -> T) (m : M S A) (h : exn -> M S A) :
  preserving f m -> (forall e, preserving f (h e)) -> preserving f (try_except m h).
Proof.
  intros Hm Hh s. unfold try_except. specialize (Hm s).
  destruct (m s) as [[a|e] s']; cbn [snd] in *; [exact Hm|].
  now rewrite Hh.
Qed.

Lemma pres_try_finally {S T A} (f : S -> T) (m : M S A) (fin : M S unit) :
  preserving f m -> preserving f fin -> preserving f (try_finally m fin).
Proof.
  intros Hm Hf s. unfold try_finally. specialize (Hm s).
  destruct (m s) as [r s']; cbn [snd] in *. specialize (Hf s').
  destruct (fin s') as [[[]|e] s'']; cbn [snd] in *; congruence.
Qed.

(** A call into the world does not touch the object. *)
Lemma pres_in_world_self {X T A} (g : X -> T) (m : M World A) :
  preserving (fun s : X * World => g (fst s)) (in_world m).
Proof. intros s. unfold in_world. now destruct (m (snd s)). Qed.

Lemma pres_in_world_fst {X A} (m : M World A) :
  preserving (fun s : X * World => fst s) (in_world m).
Proof. apply (pres_in_world_self (fun x => x)). Qed.

Lemma pres_in_world {X T A} (g : World -> T) (m : M World A) :
  preserving g m -> preserving (fun s : X * World => g (snd s)) (in_world m).
Proof.
  intros Hm s. unfold in_world. specialize (Hm (snd s)).
  now destruct (m (snd s)).
Qed.

(** A method of the store touches no other attribute of the window. *)
Lemma pres_in_store_self {Store T A} (g : MainWindow Store -> T) (m : M (Store * World) A) :
  (forall st x, g (set_store st x) = g x) ->
  preserving (fun s : MainWindow Store * World => g (fst s)) (in_store m).
Proof.
  intros Hg s. unfold in_store.
  destruct (m (store (fst s), snd s)) as [r [st' w']]. apply Hg.
Qed.

Lemma pres_in_store_world {Store T A} (g : World -> T) (m : M (Store * World) A) :
  preserving (fun s : Store * World => g (snd s)) m ->
  preserving (fun s : MainWindow Store * World => g (snd s)) (in_store m).
Proof.
  intros Hm s. unfold in_store. specialize (Hm (store (fst s), snd s)).
  destruct (m (store (fst s), snd s)) as [r [st' w']]. exact Hm.
Qed.

Create HintDb frame discriminated.
#[export] Hint Resolve pres_ret pres_raise pres_lift_res pres_gets pres_self_get
  pres_in_world_self pres_in_world_fst : frame.

(** Splits the conditionals of a goal [preserving _ _] and applies the
    lemmas above; what is left is about single assignments. *)
Ltac frame_tac :=
  repeat first
    [ progress intros
    | progress cbv zeta
    | solve [auto with frame]
    | match goal with
      | |- preserving _ (if ?b then _ else _) => destruct b
      | |- preserving _ (match ?x with _ => _ end) => destruct x
      end
    | apply pres_bind
    | apply pres_try_except
    | apply pres_try_finally
    | apply pres_in_world
    | apply pres_in_store_world
    | apply pres_in_store_self; [reflexivity]
    | apply pres_self_set; [reflexivity]
    | apply pres_modify; [intros []; reflexivity] ].

(** *** What the store and the environment leave alone

    [g] observes the world and does not depend on the fault script, the
    record, the keyring or the clipboard, nor on observations other than
    warnings. *)
Section WorldFrame.

Context {T : Type} (g : World -> T).
Hypothesis g_faults : forall l w, g (set_faults l w) = g w.
Hypothesis g_cred_file : forall f w, g (set_cred_file f w) = g w.
Hypothesis g_vault : forall v w, g (set_vault v w) = g w.
Hypothesis g_clipboard : forall c w, g (set_clipboard c w) = g w.
Hypothesis g_emit : forall o w, is_warning o = false -> g (set_trace (trace w ++ [o]) w) = g w.
Hypothesis g_settings_file : forall f w, g (set_settings_file f w) = g w.

Lemma pres_env_outcome : preserving g env_outcome.
Proof using g_faults.
  intros w. unfold env_outcome. destruct (faults w) as [|o r]; [reflexivity|].
  apply g_faults.
Qed.

Lemma pres_fallible (e : exn) : preserving g (fallible e).
Proof using g_faults.
  unfold fallible. apply pres_bind; [apply pres_env_outcome|].
  intros []; auto with frame.
Qed.

Lemma pres_emit (o : obs) : is_warning o = false -> preserving g (emit o).
Proof using g_emit. intros Ho w. now apply g_emit. Qed.

Hint Resolve pres_fallible pres_emit pres_env_outcome : frame.

Ltac prim_frame :=
  unfold ensure_dir, open_read, json_load, open_write, json_dump, os_path_exists,
    os_remove, keyring_get_password, keyring_set_password, keyring_delete_password,
    cb_text, cb_setText, cb_clear, user32_OpenClipboard, user32_EmptyClipboard,
    user32_CloseClipboard, crypt32_CryptProtectData, crypt32_CryptUnprotectData,
    free_blob, kernel32_LocalFree, open_settings_write, settings_json_dump;
  repeat first
    [ progress intros
    | progress cbv zeta
    | solve [auto with frame]
    | match goal with
      | |- preserving _ (if ?b then _ else _) => destruct b
      | |- preserving _ (match ?x with _ => _ end) => destruct x
      end
    | apply pres_try_finally
    | apply pres_try_except
    | apply pres_bind
    | apply pres_modify; intros ?;
      first [apply g_cred_file | apply g_vault | apply g_clipboard
            | apply g_settings_file] ].

Lemma pres_ensure_dir : preserving g ensure_dir.
Proof using g_faults. prim_frame. Qed.

Lemma pres_open_read : preserving g open_read.
Proof using g_faults. prim_frame. Qed.

Lemma pres_json_load (c : file_content) : preserving g (json_load c).
Proof using Type. prim_frame. Qed.

Lemma pres_open_write : preserving g open_write.
Proof using g_faults g_cred_file. prim_frame. Qed.

Lemma pres_json_dump (j : json) : preserving g (json_dump j).
Proof using g_faults g_cred_file. prim_frame. Qed.

Lemma pres_os_path_exists : preserving g os_path_exists.
Proof using Type. prim_frame. Qed.

Lemma pres_os_remove : preserving g os_remove.
Proof using g_faults g_cred_file. prim_frame. Qed.

Lemma pres_keyring_get_password (a b : list N) : preserving g (keyring_get_password a b).
Proof using g_faults. prim_frame. Qed.

Lemma pres_keyring_set_password (a b c : list N) :
  preserving g (keyring_set_password a b c).
Proof using g_faults g_vault. prim_frame. Qed.

Lemma pres_keyring_delete_password (a b : list N) :
  preserving g (keyring_delete_password a b).
Proof using g_faults g_vault. prim_frame. Qed.

Lemma pres_cb_text : preserving g cb_text.
Proof using g_faults g_emit. prim_frame. Qed.

Lemma pres_cb_setText (s : list N) : preserving g (cb_setText s).
Proof using g_faults g_emit g_clipboard. prim_frame. Qed.

Lemma pres_cb_clear : preserving g cb_clear.
Proof using g_faults g_emit g_clipboard. prim_frame. Qed.

Lemma pres_free_blob (d : DATA_BLOB) : preserving g (free_blob d).
Proof using g_faults. prim_frame. Qed.

Lemma pres_dpapi_encrypt (P : Platform) (s : list N) :
  preserving g (app_V2.dpapi_encrypt P s).
Proof using g_faults g_emit. unfold app_V2.dpapi_encrypt. prim_frame. Qed.

Lemma pres_dpapi_decrypt (P : Platform) (v : json) :
  preserving g (app_V2.dpapi_decrypt P v).
Proof using g_faults g_emit. unfold app_V2.dpapi_decrypt. prim_frame. Qed.

Hint Resolve pres_ensure_dir pres_open_read pres_json_load pres_open_write
  pres_json_dump pres_os_path_exists pres_os_remove pres_keyring_get_password
  pres_keyring_set_password pres_keyring_delete_password pres_dpapi_encrypt
  pres_dpapi_decrypt : frame.

Lemma pres_V2_get (P : Platform) :
  preserving (fun s => g (snd s)) (app_V2.PasswordStore_get P).
Proof using g_faults g_emit. unfold app_V2.PasswordStore_get. frame_tac. Qed.

Lemma pres_V2_set (P : Platform) (s : list N) (remember : bool) :
  preserving (fun s => g (snd s)) (app_V2.PasswordStore_set P s remember).
Proof using g_faults g_emit g_cred_file. unfold app_V2.PasswordStore_set. frame_tac. Qed.

Lemma pres_V2_clear_device_store :
  preserving (fun s => g (snd s)) app_V2.PasswordStore_clear_device_store.
Proof using g_faults g_cred_file. unfold app_V2.PasswordStore_clear_device_store. frame_tac. Qed.

Lemma pres_V1_get (P : Platform) :
  preserving (fun s => g (snd s)) (app.PasswordStore_get P).
Proof using g_faults. unfold app.PasswordStore_get. frame_tac. Qed.

Lemma pres_V1_set (P : Platform) (s : list N) (remember : bool) :
  preserving (fun s => g (snd s)) (app.PasswordStore_set P s remember).
Proof using g_faults g_vault. unfold app.PasswordStore_set. frame_tac. Qed.

Lemma pres_V1_clear_device_store (P : Platform) :
  preserving (fun s => g (snd s)) (app.PasswordStore_clear_device_store P).
Proof using g_faults g_vault. unfold app.PasswordStore_clear_device_store. frame_tac. Qed.

Lemma pres_win_clear_clipboard (P : Platform) : preserving g (win_clear_clipboard P).
Proof using g_faults g_emit g_clipboard. unfold win_clear_clipboard. prim_frame. Qed.

Hint Resolve pres_cb_text pres_cb_setText pres_cb_clear pres_win_clear_clipboard : frame.

Lemma pres_maybe_clear_world {Store} (P : Platform) :
  preserving (fun s : MainWindow Store * World => g (snd s)) (_maybe_clear_clipboard P).
Proof using g_faults g_emit g_clipboard. unfold _maybe_clear_clipboard. frame_tac. Qed.

Lemma pres_Settings_save (s : Settings) : preserving g (Settings_save s).
Proof using g_faults g_settings_file. unfold Settings_save. prim_frame. Qed.

Hint Resolve pres_Settings_save : frame.

Lemma pres_save_settings_world {Store} :
  preserving (fun s : MainWindow Store * World => g (snd s)) save_settings.
Proof using g_faults g_emit g_settings_file. unfold save_settings. frame_tac. Qed.

End WorldFrame.

(** Two preserved observations are preserved together. *)
Lemma pres_pair {S T U A} (f1 : S -> T) (f2 : S -> U) (m : M S A) :
  preserving f1 m -> preserving f2 m -> preserving (fun s => (f1 s, f2 s)) m.
Proof. intros H1 H2 s. now rewrite H1, H2. Qed.

(** *** The store: what [set] and [get] do to the cache *)

Lemma str_eqb_refl (s : list N) : str_eqb s s = true.
Proof. unfold str_eqb. now destruct (list_eq_dec N.eq_dec s s). Qed.

Lemma str_eqb_neq (s t : list N) : s <> t -> str_eqb s t = false.
Proof. intros H. unfold str_eqb. now destruct (list_eq_dec N.eq_dec s t). Qed.

Lemma V2_set_cache (P : Platform) (s : list N) (remember : bool)
  (st : app_V2.PasswordStore) (w : World) :
  exists w', app_V2.PasswordStore_set P s remember (st, w)
             = (Ok tt, (app_V2.set_in_memory (Some s) st, w')).
Proof.
  unfold app_V2.PasswordStore_set. unfold bind at 1. cbn [self_set fst snd].
  destruct remember; [|now exists w].
  match goal with |- exists _, ?m ?s0 = _ =>
    assert (Hnr : never_raises m) by nr_tac;
    assert (Hfr : preserving (fun x : app_V2.PasswordStore * World => fst x) m)
      by frame_tac;
    destruct (Hnr s0) as ([] & [st' w'] & E); specialize (Hfr s0);
    rewrite E in Hfr |- *; cbn [fst snd] in Hfr; subst st'
  end.
  now exists w'.
Qed.

Lemma V1_set_cache (P : Platform) (s : list N) (remember : bool)
  (st : app.PasswordStore) (w : World) :
  exists w', app.PasswordStore_set P s remember (st, w)
             = (Ok tt, (app.set_in_memory (Some s) st, w')).
Proof.
  unfold app.PasswordStore_set. unfold bind at 1. cbn [self_set fst snd].
  destruct (remember && keyring_present P); [|now exists w].
  match goal with |- exists _, ?m ?s0 = _ =>
    assert (Hnr : never_raises m) by nr_tac;
    assert (Hfr : preserving (fun x : app.PasswordStore * World => fst x) m)
      by frame_tac;
    destruct (Hnr s0) as ([] & [st' w'] & E); specialize (Hfr s0);
    rewrite E in Hfr |- *; cbn [fst snd] in Hfr; subst st'
  end.
  now exists w'.
Qed.

Lemma V2_get_cached (P : Platform) (st : app_V2.PasswordStore) (w : World) :
  truthy_opt (app_V2._in_memory st) = true ->
  app_V2.PasswordStore_get P (st, w) = (Ok (app_V2._in_memory st), (st, w)).
Proof.
  intros H. unfold app_V2.PasswordStore_get, bind, self_get. cbn [fst]. now rewrite H.
Qed.

Lemma V1_get_cached (P : Platform) (st : app.PasswordStore) (w : World) :
  truthy_opt (app._in_memory st) = true ->
  app.PasswordStore_get P (st, w) = (Ok (app._in_memory st), (st, w)).
Proof.
  intros H. unfold app.PasswordStore_get, bind, self_get. cbn [fst]. now rewrite H.
Qed.

(** C8.  In both files [set(s, True)] assigns the cache first and
    returns normally whatever the environment does: a failing
    [ensure_dir], encryption, release of the DPAPI buffer, open or write
    is swallowed.  The cache then holds [s], and for a secret as the two
    callers pass it, which is never empty, every later [get()] returns
    [s] from the cache and changes nothing. *)
Theorem set_failure_swallowed_secret_stays (P : Platform) (s : list N) (w : World) :
  (forall st : app_V2.PasswordStore,
     exists st' w',
       app_V2.PasswordStore_set P s true (st, w) = (Ok tt, (st', w'))
       /\ app_V2._in_memory st' = Some s
       /\ (s <> [] ->
           forall w'', app_V2.PasswordStore_get P (st', w'') = (Ok (Some s), (st', w''))))
  /\ (forall st : app.PasswordStore,
        exists st' w',
          app.PasswordStore_set P s true (st, w) = (Ok tt, (st', w'))
          /\ app._in_memory st' = Some s
          /\ (s <> [] ->
              forall w'', app.PasswordStore_get P (st', w'') = (Ok (Some s), (st', w'')))).
Proof.
  split; intros st.
  - destruct (V2_set_cache P s true st w) as (w' & E).
    exists (app_V2.set_in_memory (Some s) st), w'. split; [exact E|].
    split; [reflexivity|]. intros Hs w''.
    rewrite V2_get_cached; [reflexivity|]. cbn. now destruct s.
  - destruct (V1_set_cache P s true st w) as (w' & E).
    exists (app.set_in_memory (Some s) st), w'. split; [exact E|].
    split; [reflexivity|]. intros Hs w''.
    rewrite V1_get_cached; [reflexivity|]. cbn. now destruct s.
Qed.

Ltac store_eval :=
  cbv -[app_V2.dpapi_decrypt app_V2.dpapi_encrypt py_get py_or truthy truthy_opt lit
        List.app].

(** C4.  [get()] of app_V2.py returns normally from every state of the
    store, of the record and of the environment.  With a cached secret it
    returns that secret and touches nothing.  Otherwise it returns either
    nothing, with the cache as it was, or a non-empty secret that
    [dpapi_decrypt] made of the record and that is now cached; and when
    the record can be read and decrypts to a non-empty secret, that secret
    is what it returns. *)
Theorem get_never_raises (P : Platform) (st : app_V2.PasswordStore) (w : World) :
  exists r st' w',
    app_V2.PasswordStore_get P (st, w) = (Ok r, (st', w'))
    /\ (truthy_opt (app_V2._in_memory st) = true ->
        r = app_V2._in_memory st /\ st' = st /\ w' = w)
    /\ (truthy_opt (app_V2._in_memory st) = false ->
        match r with
        | None => st' = st
        | Some pw =>
            pw <> [] /\ st' = app_V2.set_in_memory (Some pw) st /\ decrypted_from P w pw
        end)
    /\ (forall (j v : json) (pw : list N) (w2 : World),
          truthy_opt (app_V2._in_memory st) = false ->
          next_ok 1 w = true ->
          cred_file w = Some (Parsed j) ->
          py_get j (lit "dpapi") = Ok v ->
          truthy (py_or v (JStr [])) = true ->
          app_V2.dpapi_decrypt P (py_or v (JStr [])) (set_faults (List.tl (faults w)) w)
          = (Ok (Some pw), w2) ->
          pw <> [] ->
          r = Some pw /\ w' = w2).
Proof.
  destruct (truthy_opt (app_V2._in_memory st)) eqn:Hmem.
  { exists (app_V2._in_memory st), st, w. rewrite (V2_get_cached P st w Hmem).
    repeat split; congruence. }
  destruct st as [lbl mem]. cbn [app_V2._in_memory] in Hmem.
  destruct w as [cf v cb ck tm ni fl tr sf].
  unfold app_V2.PasswordStore_get, decrypted_from, next_ok.
  store_eval. rewrite Hmem.
  (* the last conjunct, once the record and its field are known *)
  assert (Hlast : forall (j x : json) (wd : World) (res : res (option (list N)) * World)
                         (r : option (list N)) (w' : World),
            py_get j (lit "dpapi") = Ok x ->
            app_V2.dpapi_decrypt P (py_or x (JStr [])) wd = res ->
            (forall pw w2, res = (Ok (Some pw), w2) -> pw <> [] -> r = Some pw /\ w' = w2) ->
            forall (j0 v0 : json) (pw : list N) (w2 : World),
              Some (Parsed j) = Some (Parsed j0) ->
              py_get j0 (lit "dpapi") = Ok v0 ->
              truthy (py_or v0 (JStr [])) = true ->
              app_V2.dpapi_decrypt P (py_or v0 (JStr [])) wd = (Ok (Some pw), w2) ->
              pw <> [] -> r = Some pw /\ w' = w2).
  { intros j x wd res r w' Ej Ed Hres j0 v0 pw w2 [= <-] Hpy _ Hdec Hne.
    rewrite Ej in Hpy. injection Hpy as <-. rewrite Ed in Hdec. now apply Hres. }
  destruct fl as [|[] fl]; destruct cf as [[|j]|]; store_eval;
    try (exists None; eexists; eexists; split; [reflexivity|];
         repeat split; intros; congruence).
  all: destruct (py_get j (lit "dpapi")) as [x|e] eqn:Ej; store_eval;
    try (exists None; eexists; eexists; split; [reflexivity|];
         repeat split; intros; congruence).
  all: destruct (truthy (py_or x (JStr []))) eqn:Et; store_eval;
    try (exists None; eexists; eexists; split; [reflexivity|];
         repeat split; intros; congruence).
  all: match goal with
       | |- context [app_V2.dpapi_decrypt ?p ?a ?b] =>
           destruct (app_V2.dpapi_decrypt p a b) as [[[[|c r]|]|e] w2] eqn:Ed
       end; store_eval.
  all: try (exists None; eexists; eexists; split; [reflexivity|];
            split; [discriminate|]; split; [intros _; reflexivity|];
            intros j0 v0 pw0 w20 _ _; apply (Hlast j x _ _ _ _ Ej Ed);
            intros pw' w2' [= ? ?] Hne; congruence).
  all: exists (Some (c :: r)); eexists; eexists; split; [reflexivity|];
       split; [discriminate|]; split;
       [ intros _; split; [discriminate|]; split; [reflexivity|];
         exists j, x; eexists; exists w2; repeat split; eassumption
       | intros j0 v0 pw0 w20 _ _; apply (Hlast j x _ _ _ _ Ej Ed);
         intros pw' w2' [= <- <-] _; split; reflexivity ].
Qed.

(** *** The stand-in for DPAPI keeps the contract *)



(** The worlds with a remembered password are what [set("old", True)]
    leaves behind. *)
Lemma worlds_with_old_record :
  cred_file (snd (snd (app_V2.PasswordStore_set windows_pc (lit "old") true
                         (app_V2.PasswordStore_init USERNAME_LABEL, quiet_world))))
  = cred_file windows_world_old
  /\ cred_file (snd (snd (app_V2.PasswordStore_set linux_pc (lit "old") true
                            (app_V2.PasswordStore_init USERNAME_LABEL, quiet_world))))
     = cred_file linux_world_old
  /\ vault (snd (snd (app.PasswordStore_set linux_pc (lit "old") true
                        (app.PasswordStore_init app.SERVICE_NAME USERNAME_LABEL, quiet_world))))
     = vault keyring_world_old.
Proof. repeat split; vm_compute; reflexivity. Qed.

(** *** C3: a session-only password and the remembered record *)

(** In app_V2.py [set(pw, False)] assigns the cache and does nothing else. *)
Lemma V2_set_session_only (P : Platform) (pw : list N) (st : app_V2.PasswordStore)
  (w : World) :
  app_V2.PasswordStore_set P pw false (st, w)
  = (Ok tt, (app_V2.set_in_memory (Some pw) st, w)).
Proof. reflexivity. Qed.

(** C3 (the code departs from the claim).  On Windows a password [old] is
    remembered; the user then sets [new] with the box unchecked.  In
    app_V2.py the record is still there afterwards, and a fresh store
    decrypts it and returns [old]. *)
Theorem session_only_set_keeps_old_record :
  let dlg := {| accepted := true; text := lit "new"; remember_checked := false |} in
  let window := new_window (app_V2.PasswordStore_init USERNAME_LABEL) in
  let after := snd (app_V2.change_password windows_pc dlg (window, windows_world_old)) in
  app_V2._in_memory (store (fst after)) = Some (lit "new")
  /\ cred_file (snd after) = cred_file windows_world_old
  /\ fst (app_V2.PasswordStore_get windows_pc
            (app_V2.PasswordStore_init USERNAME_LABEL, snd after))
     = Ok (Some (lit "old")).
Proof. vm_compute. repeat split; reflexivity. Qed.

(** The same steps in app.py: [change_password] clears the keyring entry
    first, and a fresh store finds nothing. *)
Lemma session_only_set_deletes_keyring_entry :
  let dlg := {| accepted := true; text := lit "new"; remember_checked := false |} in
  let window := new_window (app.PasswordStore_init app.SERVICE_NAME USERNAME_LABEL) in
  let after := snd (app.change_password linux_pc dlg (window, keyring_world_old)) in
  vault (snd after) !! (app.SERVICE_NAME, USERNAME_LABEL) = None
  /\ fst (app.PasswordStore_get linux_pc
            (app.PasswordStore_init app.SERVICE_NAME USERNAME_LABEL, snd after))
     = Ok None.
Proof. vm_compute. repeat split; reflexivity. Qed.

(** *** C10: the flags passed to DPAPI *)

(** On Windows every call of [dpapi_encrypt] that reaches the primitive
    passes [CRYPTPROTECT_UI_FORBIDDEN]. *)
Lemma dpapi_encrypt_flags (P : Platform) (s : list N) (w : World) :
  IS_WINDOWS P = true ->
  trace (snd (app_V2.dpapi_encrypt P s w)) = trace w
  \/ trace (snd (app_V2.dpapi_encrypt P s w))
     = trace w ++ [ObsProtect app_V2.CRYPTPROTECT_UI_FORBIDDEN].
Proof.
  intros HP. unfold app_V2.dpapi_encrypt. rewrite HP. mred.
  destruct (utf8_encode s) as [raw|e]; [|now left]. right.
  mred. destruct (option_map _ _) as [d|]; [|reflexivity].
  match goal with
  | |- context [free_blob d ?w0] =>
      pose proof (@pres_free_blob _ trace (fun _ _ => eq_refl) d w0) as Hf;
      destruct (free_blob d w0) as [[[]|e] w2]
  end; cbn [fst snd] in Hf |- *; mred;
    try match goal with |- context [ascii_decode ?x] => destruct (ascii_decode x) end;
    exact Hf.
Qed.

(** On Windows every call of [dpapi_decrypt] that reaches the primitive
    passes zero. *)
Lemma dpapi_decrypt_flags (P : Platform) (v : json) (w : World) :
  IS_WINDOWS P = true ->
  trace (snd (app_V2.dpapi_decrypt P v w)) = trace w
  \/ trace (snd (app_V2.dpapi_decrypt P v w)) = trace w ++ [ObsUnprotect 0].
Proof.
  intros HP. unfold app_V2.dpapi_decrypt. rewrite HP. mred.
  destruct (b64decode v) as [enc|e]; [|now left]. right.
  mred. destruct (option_map _ _) as [d|]; [|reflexivity].
  match goal with
  | |- context [free_blob d ?w0] =>
      pose proof (@pres_free_blob _ trace (fun _ _ => eq_refl) d w0) as Hf;
      destruct (free_blob d w0) as [[[]|e] w2]
  end; cbn [fst snd] in Hf |- *; mred;
    try match goal with |- context [utf8_decode ?x] => destruct (utf8_decode x) end;
    exact Hf.
Qed.

(** C10 (the code departs from the claim).  Decrypting the record of
    [windows_world_old] calls [CryptUnprotectData] once, with [dwFlags]
    zero: the bit [CRYPTPROTECT_UI_FORBIDDEN] is not set.  Encrypting
    passes the flag. *)
Theorem dpapi_decrypt_does_not_forbid_ui :
  trace (snd (app_V2.dpapi_decrypt windows_pc (JStr (lit "QTU2Pg==")) quiet_world))
  = [ObsUnprotect 0]
  /\ Z.land 0 app_V2.CRYPTPROTECT_UI_FORBIDDEN = 0%Z
  /\ fst (app_V2.dpapi_decrypt windows_pc (JStr (lit "QTU2Pg==")) quiet_world)
     = Ok (Some (lit "old"))
  /\ trace (snd (app_V2.dpapi_encrypt windows_pc (lit "old") quiet_world))
     = [ObsProtect app_V2.CRYPTPROTECT_UI_FORBIDDEN].
Proof. vm_compute. repeat split; reflexivity. Qed.

(** *** C2: counterexample and witness *)




(** *** C9: the empty password *)

Lemma warnings_emit (o : obs) (w : World) :
  is_warning o = false -> warnings (set_trace (trace w ++ [o]) w) = warnings w.
Proof.
  intros Ho. unfold warnings. cbn [trace set_trace].
  rewrite List.filter_app. cbn [List.filter]. rewrite Ho. apply app_nil_r.
Qed.

Lemma pres_warnings_V2_change_password (P : Platform) (dlg : dialog) :
  accepted dlg = false \/ text dlg <> [] ->
  preserving (fun s => warnings (snd s)) (app_V2.change_password P dlg).
Proof.
  intros H. unfold app_V2.change_password, app_V2.refresh_status.
  destruct (accepted dlg); [|auto with frame].
  destruct (text dlg) as [|c r]; [destruct H; congruence|]. cbn [truthy negb].
  pose proof (fun s b => @pres_V2_set _ warnings (fun _ _ => eq_refl)
                           (fun _ _ => eq_refl) warnings_emit P s b) as Hset.
  pose proof (@pres_V2_get _ warnings (fun _ _ => eq_refl) warnings_emit P) as Hget.
  pose proof (fun o H => @pres_emit _ warnings warnings_emit o H) as Hemit.
  frame_tac.
Qed.

Lemma pres_warnings_V1_change_password (P : Platform) (dlg : dialog) :
  accepted dlg = false \/ text dlg <> [] ->
  preserving (fun s => warnings (snd s)) (app.change_password P dlg).
Proof.
  intros H. unfold app.change_password, app.refresh_status.
  destruct (accepted dlg); [|auto with frame].
  destruct (text dlg) as [|c r]; [destruct H; congruence|]. cbn [truthy negb].
  pose proof (fun s b => @pres_V1_set _ warnings (fun _ _ => eq_refl)
                           (fun _ _ => eq_refl) P s b) as Hset.
  pose proof (@pres_V1_get _ warnings (fun _ _ => eq_refl) P) as Hget.
  pose proof (@pres_V1_clear_device_store _ warnings (fun _ _ => eq_refl)
                (fun _ _ => eq_refl) P) as Hclear.
  pose proof (fun o H => @pres_emit _ warnings warnings_emit o H) as Hemit.
  frame_tac.
Qed.

(** The rejection of the empty password.  In both files [change_password]
    with an accepted dialog and an empty password shows the warning and
    returns: the window with its store, the record and the keyring are as
    before.  [change_password] never raises, and in every other case it
    shows no warning at all. *)
Theorem empty_password_rejected (P : Platform) (dlg : dialog) :
  (forall (m : MainWindow app_V2.PasswordStore) (w : World),
     accepted dlg = true -> text dlg = [] ->
     app_V2.change_password P dlg (m, w)
     = (Ok tt, (m, set_trace (trace w ++ [ObsWarning (lit "Password required")]) w)))
  /\ never_raises (app_V2.change_password P dlg)
  /\ (accepted dlg = false \/ text dlg <> [] ->
      preserving (fun s => warnings (snd s)) (app_V2.change_password P dlg))
  /\ (forall (m : MainWindow app.PasswordStore) (w : World),
        accepted dlg = true -> text dlg = [] ->
        app.change_password P dlg (m, w)
        = (Ok tt, (m, set_trace (trace w ++ [ObsWarning (lit "Password required")]) w)))
  /\ never_raises (app.change_password P dlg)
  /\ (accepted dlg = false \/ text dlg <> [] ->
      preserving (fun s => warnings (snd s)) (app.change_password P dlg)).
Proof.
  repeat split.
  - intros m w Ha Ht. unfold app_V2.change_password. now rewrite Ha, Ht.
  - apply nr_V2_change_password.
  - apply pres_warnings_V2_change_password.
  - intros m w Ha Ht. unfold app.change_password. now rewrite Ha, Ht.
  - apply nr_V1_change_password.
  - apply pres_warnings_V1_change_password.
Qed.

(** The rejection at work: [old] is remembered, the dialog comes back
    empty, and cache, record and keyring are untouched. *)
Lemma rejection_leaves_record_example :
  let dlg := {| accepted := true; text := []; remember_checked := true |} in
  let window := new_window (app_V2.PasswordStore_init USERNAME_LABEL) in
  let r := app_V2.change_password windows_pc dlg (window, windows_world_old) in
  fst r = Ok tt
  /\ fst (snd r) = window
  /\ cred_file (snd (snd r)) = cred_file windows_world_old
  /\ warnings (snd (snd r)) = [ObsWarning (lit "Password required")].
Proof. vm_compute. repeat split; reflexivity. Qed.


(** *** The clipboard: what the slot and the copy do *)

Ltac clip_eval_in H :=
  cbv -[str_eqb clip_text lit List.app List.filter Z.add Z.mul Z.max Z.leb N.add N.eqb N.lt] in H.

(** Names the result of the slot in [let r := call in _] and evaluates the
    call up to the comparison of the clipboard text with the snapshot,
    which [H] decides; then evaluates the rest. *)
Ltac run_slot E H :=
  match goal with
  | |- let r := ?c in _ =>
      let r' := fresh "r" in
      let m' := fresh "m'" in
      let w' := fresh "w'" in
      let K := fresh "K" in
      let HK := fresh "HK" in
      destruct c as [r' [m' w']] eqn:E; cbv zeta; cbn [fst snd];
      unfold _maybe_clear_clipboard, try_finally, try_except in E;
      unfold bind at 1 in E;
      cbv beta iota delta [self_get fst _last_copied_value] in E;
      match type of E with
      | context [bind (in_world cb_text) ?k] => remember k as K eqn:HK
      end;
      clip_eval_in E;
      subst K; cbv beta in E;
      try (first [ rewrite str_eqb_refl in E | rewrite (str_eqb_neq H) in E ]);
      clip_eval_in E
  end.

(** C1.  When the timeout slot runs with a snapshot [v]: if the clipboard
    text equals [v] and the four Qt clipboard calls work, the slot reads
    the clipboard, clears it, writes the empty text, clears it again, runs
    the forced flush (whose failure changes nothing else) and shows
    "Clipboard cleared"; the clipboard ends empty.  If the clipboard text
    differs from [v], the slot at most reads the clipboard: the content is
    as it was and nothing is shown. *)
Theorem auto_clear_only_own_value {Store} (P : Platform) (m : MainWindow Store)
  (w : World) (v : list N) :
  _last_copied_value m = Some v ->
  (clip_text (clipboard w) = v -> next_ok 4 w = true ->
   let r := _maybe_clear_clipboard P (m, w) in
   fst r = Ok tt
   /\ clipboard (snd (snd r)) = ClipEmpty
   /\ trace (snd (snd r))
      = trace w ++ [ObsCbText v; ObsCbClear; ObsCbSetText []; ObsCbClear]
        ++ flush_trace P (List.nth 4 (faults w) Normal)
        ++ [ObsTray (lit "Clipboard cleared")])
  /\ (clip_text (clipboard w) <> v ->
      let r := _maybe_clear_clipboard P (m, w) in
      fst r = Ok tt
      /\ clipboard (snd (snd r)) = clipboard w
      /\ (trace (snd (snd r)) = trace w
          \/ trace (snd (snd r)) = trace w ++ [ObsCbText (clip_text (clipboard w))])).
Proof.
  intros Hlast.
  destruct m as [se st last tmr chk spin lbl]. cbn in Hlast. subst last.
  destruct w as [cf vl cb ck tm ni fl tr sf].
  destruct P as [isw kp prot unprot].
  split.
  - intros Hclip Hok. cbn in Hclip. subst v.
    unfold next_ok in Hok. cbn [faults] in Hok.
    destruct fl as [|[] [|[] [|[] [|[] [|o5 fl]]]]]; try discriminate Hok;
      clear Hok.
    all: run_slot E I.
    all: destruct isw; try destruct o5; clip_eval_in E.
    all: injection E as <- <- <-; cbn; rewrite <- ?app_assoc; repeat split; reflexivity.
  - intros Hclip. cbn in Hclip.
    destruct fl as [|[] fl].
    all: run_slot E Hclip.
    all: injection E as <- <- <-; cbn; repeat split; auto.
Qed.

Lemma auto_clear_only_own_value_witness :
  let w := set_clipboard (ClipText (lit "P@ss1")) quiet_world in
  let w' := set_clipboard (ClipText (lit "other")) quiet_world in
  let m := set_last_copied_value (Some (lit "P@ss1"))
             (new_window (app_V2.PasswordStore_init USERNAME_LABEL)) in
  (clipboard (snd (snd (_maybe_clear_clipboard windows_pc (m, w)))) = ClipEmpty
   /\ clipboard (snd (snd (_maybe_clear_clipboard windows_pc (m, w'))))
      = ClipText (lit "other")).
Proof.
  intros w w' m.
  pose proof (@auto_clear_only_own_value _ windows_pc m w (lit "P@ss1") eq_refl)
    as [Hsame _].
  pose proof (@auto_clear_only_own_value _ windows_pc m w' (lit "P@ss1") eq_refl)
    as [_ Hdiff].
  split.
  - apply (Hsame eq_refl eq_refl).
  - apply Hdiff. vm_compute. discriminate.
Defined.

(** *** C6: the copy *)

(** The settings saved last play no part in the copy. *)
Lemma copy_ignores_saved_settings {Store} (pw : list N) (m : MainWindow Store)
  (w : World) (saved : Settings) :
  copy_to_clipboard pw (set_settings saved m, w)
  = (fst (copy_to_clipboard pw (m, w)),
     (set_settings saved (fst (snd (copy_to_clipboard pw (m, w)))),
      snd (snd (copy_to_clipboard pw (m, w))))).
Proof.
  destruct m as [se st last [ss [i|]] [] spin lbl];
    destruct w as [cf vl cb ck tm ni [|[] fl] tr sf]; reflexivity.
Qed.

(** What the copy does when the clipboard write works. *)
Lemma copy_to_clipboard_spec {Store} (pw : list N) (m : MainWindow Store) (w : World) :
  next_ok 1 w = true ->
  timer_inv (m, w) ->
  let r := copy_to_clipboard pw (m, w) in
  fst r = Ok tt
  /\ clipboard (snd (snd r)) = ClipText pw
  /\ _last_copied_value (fst (snd r)) = Some pw
  /\ (chk_auto m = true ->
      armed pw (next_id w) (clock w + Z.max 1 (spin_secs m) * 1000)%Z (snd r)
      /\ timer_inv (snd r)
      /\ singleShot (_clear_timer (fst (snd r))) = true
      /\ next_id (snd (snd r)) = next_id w + 1)
  /\ (chk_auto m = false ->
      _clear_timer (fst (snd r)) = _clear_timer m
      /\ qt_timers (snd (snd r)) = qt_timers w).
Proof.
  intros Hok Hinv r. subst r.
  repeat match goal with |- _ /\ _ => split end.
  all: destruct m as [se st last [ss ti] chk spin lbl];
    destruct w as [cf vl cb ck tm ni fl tr sf];
    unfold next_ok in Hok; cbn [faults] in Hok;
    destruct Hinv as [Hss Hti]; cbn in Hss, Hti; subst ss;
    destruct fl as [|[] fl]; try discriminate Hok; clear Hok.
  all: destruct ti as [i|]; [destruct Hti as [[due ->] Hlt]|subst tm].
  all: destruct chk; try (cbn; discriminate).
  all: try (cbv -[N.add N.eqb N.lt Z.add Z.mul Z.max]; rewrite ?N.eqb_refl;
            cbv -[N.add N.eqb N.lt Z.add Z.mul Z.max]; repeat split; eauto; lia).
Qed.

(** With a cached password [copy_password] of either file asks nothing
    and runs the copy. *)
Lemma V2_copy_password_cached (P : Platform) (dlg : dialog)
  (m : MainWindow app_V2.PasswordStore) (w : World) (pw : list N) :
  app_V2._in_memory (store m) = Some pw -> pw <> [] ->
  app_V2.copy_password P dlg (m, w) = copy_to_clipboard pw (m, w).
Proof.
  intros Hmem Hpw. unfold app_V2.copy_password. unfold bind at 1.
  unfold in_store. cbn [fst snd].
  rewrite V2_get_cached by (rewrite Hmem; now destruct pw).
  rewrite Hmem. destruct pw as [|c r]; [congruence|]. cbn [truthy_opt negb].
  now destruct m.
Qed.

Lemma V1_copy_password_cached (P : Platform) (dlg : dialog)
  (m : MainWindow app.PasswordStore) (w : World) (pw : list N) :
  app._in_memory (store m) = Some pw -> pw <> [] ->
  app.copy_password P dlg (m, w) = copy_to_clipboard pw (m, w).
Proof.
  intros Hmem Hpw. unfold app.copy_password. unfold bind at 1.
  unfold in_store. cbn [fst snd].
  rewrite V1_get_cached by (rewrite Hmem; now destruct pw).
  rewrite Hmem. destruct pw as [|c r]; [congruence|]. cbn [truthy_opt negb].
  now destruct m.
Qed.

(** C6 (amended).  The copy is what [copy_password] of either file does
    once it has a password, and all it does when the store has one cached.
    When the clipboard write works, the copy puts [pw] on the clipboard
    and records it as the snapshot, both whatever the checkbox says.  It
    starts the timer exactly when the checkbox is checked: the timer is
    then the only one running and is due after [max(1, spin_secs)]
    seconds; with the box unchecked the timer and the running timers are
    as before.  Checkbox and spin box are read from the window at the time
    of the call, and the settings saved last have no influence. *)
Theorem copy_records_snapshot_and_uses_live_settings {Store} (pw : list N)
  (m : MainWindow Store) (w : World) :
  next_ok 1 w = true ->
  timer_inv (m, w) ->
  let r := copy_to_clipboard pw (m, w) in
  fst r = Ok tt
  /\ clipboard (snd (snd r)) = ClipText pw
  /\ _last_copied_value (fst (snd r)) = Some pw
  /\ (chk_auto m = true ->
      armed pw (next_id w) (clock w + Z.max 1 (spin_secs m) * 1000)%Z (snd r)
      /\ timer_inv (snd r))
  /\ (chk_auto m = false ->
      _clear_timer (fst (snd r)) = _clear_timer m
      /\ qt_timers (snd (snd r)) = qt_timers w)
  /\ (forall saved : Settings,
        copy_to_clipboard pw (set_settings saved m, w)
        = (fst r, (set_settings saved (fst (snd r)), snd (snd r))))
  /\ (forall P dlg (m2 : MainWindow app_V2.PasswordStore) w2 pw2,
        app_V2._in_memory (store m2) = Some pw2 -> pw2 <> [] ->
        app_V2.copy_password P dlg (m2, w2) = copy_to_clipboard pw2 (m2, w2))
  /\ (forall P dlg (m1 : MainWindow app.PasswordStore) w1 pw1,
        app._in_memory (store m1) = Some pw1 -> pw1 <> [] ->
        app.copy_password P dlg (m1, w1) = copy_to_clipboard pw1 (m1, w1)).
Proof.
  intros Hok Hinv r.
  destruct (copy_to_clipboard_spec pw Hok Hinv) as (H1 & H2 & H3 & H4 & H5).
  repeat match goal with |- _ /\ _ => split end; try assumption.
  - intros Hc. destruct (H4 Hc) as (Ha & Hi & _). now split.
  - intros saved. apply copy_ignores_saved_settings.
  - intros P dlg m2 w2 pw2. apply V2_copy_password_cached.
  - intros P dlg m1 w1 pw1. apply V1_copy_password_cached.
Qed.

(** *** The timeout slot and the event loop *)

(** What the slot leaves of the window and of the event loop's timers. *)
Lemma slot_resets {Store} (P : Platform) (s : MainWindow Store * World) :
  exists m' w',
    _maybe_clear_clipboard P s = (Ok tt, (m', w'))
    /\ _last_copied_value m' = None
    /\ _clear_timer m' = _clear_timer (fst s)
    /\ qt_timers w' = qt_timers (snd s)
    /\ next_id w' = next_id (snd s).
Proof.
  destruct (nr_maybe_clear_clipboard (Store := Store) P s) as ([] & [m' w'] & E).
  exists m', w'. split; [exact E|].
  assert (Hw := @pres_maybe_clear_world _ (fun w => (qt_timers w, next_id w))
                  (fun _ _ => eq_refl) (fun _ _ => eq_refl) (fun _ _ _ => eq_refl)
                  Store P s).
  assert (Ht : preserving (fun x : MainWindow Store * World => _clear_timer (fst x))
                 (_maybe_clear_clipboard P))
    by (unfold _maybe_clear_clipboard; frame_tac).
  specialize (Ht s). rewrite E in Hw, Ht. cbn [fst snd] in Hw, Ht.
  injection Hw as Hq Hn.
  repeat split; try assumption.
  unfold _maybe_clear_clipboard, try_finally in E.
  match type of E with
  | context [try_except ?b ?h s] => destruct (try_except b h s) as [r [m1 w1]]
  end.
  cbn in E. now injection E as _ <- _.
Qed.

(** A timer that is not due is left alone and the slot does not run. *)
Lemma deliver_not_due {Store} (P : Platform) (s : MainWindow Store * World) :
  QTimer_due (_clear_timer (fst s)) (snd s) = false ->
  deliver_timeout P s = (Ok tt, s).
Proof.
  intros H. unfold deliver_timeout, bind, self_get. cbn [snd]. now rewrite H.
Qed.

Lemma idle_not_due {Store} (s : MainWindow Store * World) :
  idle s -> QTimer_due (_clear_timer (fst s)) (snd s) = false.
Proof. intros (_ & H & _). unfold QTimer_due. now rewrite H. Qed.

(** A due timeout of the armed manager: the timer stops, the slot runs
    once, and the manager is idle. *)
Lemma deliver_due {Store} (P : Platform) (v : list N) (i : N) (due : Z)
  (s : MainWindow Store * World) :
  singleShot (_clear_timer (fst s)) = true ->
  armed v i due s ->
  QTimer_due (_clear_timer (fst s)) (snd s) = true ->
  exists m' w',
    deliver_timeout P s = (Ok tt, (m', w'))
    /\ idle (m', w')
    /\ singleShot (_clear_timer m') = true
    /\ next_id w' = next_id (snd s).
Proof.
  destruct s as [[se st last [ss ti] chk spin lbl] [cf vl cb ck tm ni fl tr sf]].
  unfold armed. cbn [fst snd _clear_timer _last_copied_value singleShot timerId
                      qt_timers next_id].
  intros -> (-> & -> & ->) Hdue.
  unfold deliver_timeout. unfold bind at 1. cbn [self_get fst _clear_timer].
  unfold bind at 1. cbn [snd]. rewrite Hdue. cbn [singleShot].
  match goal with
  | |- context [bind ?a (fun _ => bind ?b (fun _ => _maybe_clear_clipboard P)) ?s0] =>
      assert (Hpre : exists w1,
                 bind a (fun _ => bind b (fun _ => @_maybe_clear_clipboard Store P)) s0
                 = _maybe_clear_clipboard P
                     ({| settings := se; store := st; _last_copied_value := Some v;
                         _clear_timer := {| singleShot := true; timerId := None |};
                         chk_auto := chk; spin_secs := spin; status_lbl := lbl |}, w1)
                 /\ qt_timers w1 = [] /\ next_id w1 = ni)
  end.
  { eexists. split.
    - cbv -[_maybe_clear_clipboard N.eqb List.app]. rewrite N.eqb_refl.
      cbv -[_maybe_clear_clipboard N.eqb List.app]. reflexivity.
    - split; reflexivity. }
  destruct Hpre as (w1 & -> & Hq & Hn).
  match goal with
  | |- context [_maybe_clear_clipboard P ?s1] =>
      destruct (slot_resets P s1) as (m' & w' & -> & Hl & Ht & Hq' & Hn')
  end.
  cbn [fst snd _clear_timer] in *. exists m', w'. unfold idle. cbn [fst snd].
  rewrite Hl, Ht, Hq', Hn', Hq, Hn. repeat split; reflexivity.
Qed.

Lemma plan_of_armed_or_idle {Store} (v : list N) (i : N) (due : Z) (n : N)
  (s s' : MainWindow Store * World) :
  clear_plan s' = clear_plan s -> armed_or_idle v i due n s -> armed_or_idle v i due n s'.
Proof.
  unfold clear_plan, armed_or_idle, armed, idle. intros [= H1 H2 H3 H4].
  now rewrite H1, H2, H3, H4.
Qed.

Lemma pres_clear_plan {Store A} (m : M (MainWindow Store * World) A) :
  preserving (fun s => (_last_copied_value (fst s), _clear_timer (fst s))) m ->
  preserving (fun s => (qt_timers (snd s), next_id (snd s))) m ->
  preserving clear_plan m.
Proof.
  intros H1 H2 s. specialize (H1 s). specialize (H2 s). unfold clear_plan.
  injection H1 as -> ->. injection H2 as -> ->. reflexivity.
Qed.

Lemma pres_plan_save_settings {Store} : preserving clear_plan (@save_settings Store).
Proof.
  pose proof (fun s => @pres_Settings_save _ (fun w => (qt_timers w, next_id w))
                         (fun _ _ => eq_refl) (fun _ _ => eq_refl) s).
  apply pres_clear_plan; unfold save_settings; frame_tac.
  - apply (pres_in_world_self (fun x => (_last_copied_value x, _clear_timer x))).
  - apply (@pres_in_world _ _ _ (fun w => (qt_timers w, next_id w)) _ (H _)).
Qed.

Section EventLoop.

Context {Store : Type} (P : Platform).
Variables copy_password change_password : dialog -> M (MainWindow Store * World) unit.
Variable clear_saved_password : M (MainWindow Store * World) unit.
Hypothesis change_plan : forall dlg, preserving clear_plan (change_password dlg).
Hypothesis clear_saved_plan : preserving clear_plan clear_saved_password.

(** Every event but a copy keeps the manager armed for the same snapshot
    and timer, or idle. *)
Lemma step_armed_or_idle (v : list N) (i : N) (due : Z) (n : N) (e : event)
  (s : MainWindow Store * World) :
  is_copy e = false ->
  armed_or_idle v i due n s ->
  armed_or_idle v i due n
    (loop_step P copy_password change_password clear_saved_password e s).
Proof using change_plan clear_saved_plan.
  intros He H. destruct e; try discriminate He; cbn [loop_step].
  - eapply plan_of_armed_or_idle; [apply change_plan | exact H].
  - eapply plan_of_armed_or_idle; [apply clear_saved_plan | exact H].
  - eapply plan_of_armed_or_idle; [apply pres_plan_save_settings | exact H].
  - eapply plan_of_armed_or_idle; [|exact H]. reflexivity.
  - eapply plan_of_armed_or_idle; [|exact H]. reflexivity.
  - eapply plan_of_armed_or_idle; [|exact H]. reflexivity.
  - eapply plan_of_armed_or_idle; [|exact H]. reflexivity.
  - destruct (QTimer_due (_clear_timer (fst s)) (snd s)) eqn:Hdue.
    + destruct H as (Hss & Hn & [Ha | Hi]).
      * destruct (deliver_due P Hss Ha Hdue) as (m' & w' & -> & Hidle & Hss' & Hn').
        split; [exact Hss'|]. split; [cbn [snd] in *; congruence|]. now right.
      * rewrite (idle_not_due Hi) in Hdue. discriminate.
    + now rewrite (deliver_not_due P s Hdue).
Qed.

Lemma run_armed_or_idle (v : list N) (i : N) (due : Z) (n : N) (evs : list event) :
  forall s : MainWindow Store * World,
    no_copy evs = true ->
    armed_or_idle v i due n s ->
    armed_or_idle v i due n
      (loop_run P copy_password change_password clear_saved_password evs s).
Proof using change_plan clear_saved_plan.
  unfold loop_run, no_copy.
  induction evs as [|e evs IH]; intros s Hevs H; cbn [List.fold_left]; [exact H|].
  cbn [List.forallb] in Hevs. apply andb_prop in Hevs as [He Hevs].
  apply IH; [exact Hevs|]. apply step_armed_or_idle; [|exact H].
  now apply negb_true_iff in He.
Qed.




End EventLoop.

(** *** Setting and clearing the password leave the clear plan alone *)

Lemma pres_plan_self_in_store {Store A} (m : M (Store * World) A) :
  preserving (fun s : MainWindow Store * World =>
                (_last_copied_value (fst s), _clear_timer (fst s))) (in_store m).
Proof.
  apply (pres_in_store_self (fun x => (_last_copied_value x, _clear_timer x))).
  reflexivity.
Qed.

Lemma pres_plan_world_in_store {Store A} (m : M (Store * World) A) :
  preserving (fun s : Store * World => (qt_timers (snd s), next_id (snd s))) m ->
  preserving (fun s : MainWindow Store * World => (qt_timers (snd s), next_id (snd s)))
    (in_store m).
Proof. apply (pres_in_store_world (fun w => (qt_timers w, next_id w))). Qed.

Ltac plan_frame :=
  apply pres_clear_plan;
  [ repeat (frame_tac; try apply pres_plan_self_in_store)
  | pose proof (fun P s b => @pres_V2_set _ (fun w => (qt_timers w, next_id w))
                               (fun _ _ => eq_refl) (fun _ _ => eq_refl)
                               (fun _ _ _ => eq_refl) P s b);
    pose proof (fun P => @pres_V2_get _ (fun w => (qt_timers w, next_id w))
                           (fun _ _ => eq_refl) (fun _ _ _ => eq_refl) P);
    pose proof (@pres_V2_clear_device_store _ (fun w => (qt_timers w, next_id w))
                  (fun _ _ => eq_refl) (fun _ _ => eq_refl));
    pose proof (fun P s b => @pres_V1_set _ (fun w => (qt_timers w, next_id w))
                               (fun _ _ => eq_refl) (fun _ _ => eq_refl) P s b);
    pose proof (fun P => @pres_V1_get _ (fun w => (qt_timers w, next_id w))
                           (fun _ _ => eq_refl) P);
    pose proof (fun P => @pres_V1_clear_device_store _ (fun w => (qt_timers w, next_id w))
                           (fun _ _ => eq_refl) (fun _ _ => eq_refl) P);
    repeat (frame_tac; try (apply pres_plan_world_in_store; cbv beta in *; auto)) ].

Lemma V2_change_password_plan (P : Platform) (dlg : dialog) :
  preserving clear_plan (app_V2.change_password P dlg).
Proof. unfold app_V2.change_password, app_V2.refresh_status. plan_frame. Qed.

Lemma V2_clear_saved_password_plan (P : Platform) :
  preserving clear_plan (app_V2.clear_saved_password P).
Proof.
  unfold app_V2.clear_saved_password, app_V2.refresh_status,
    app_V2.PasswordStore_clear_memory.
  plan_frame.
Qed.

Lemma V1_change_password_plan (P : Platform) (dlg : dialog) :
  preserving clear_plan (app.change_password P dlg).
Proof. unfold app.change_password, app.refresh_status. plan_frame. Qed.

Lemma V1_clear_saved_password_plan (P : Platform) :
  preserving clear_plan (app.clear_saved_password P).
Proof.
  unfold app.clear_saved_password, app.refresh_status, app.PasswordStore_clear_memory.
  plan_frame.
Qed.

Lemma V2_refresh_plan (P : Platform) : preserving clear_plan (app_V2.refresh_status P).
Proof. unfold app_V2.refresh_status. plan_frame. Qed.

Lemma V1_refresh_plan (P : Platform) : preserving clear_plan (app.refresh_status P).
Proof. unfold app.refresh_status. plan_frame. Qed.

(** The invariants of the event loop, for the two programs. *)
Lemma V2_run_armed_or_idle (P : Platform) (v : list N) (i : N) (due : Z) (n : N)
  (evs : list event) (s : MainWindow app_V2.PasswordStore * World) :
  no_copy evs = true -> armed_or_idle v i due n s ->
  armed_or_idle v i due n (app_V2.run P evs s).
Proof.
  apply (@run_armed_or_idle _ P (app_V2.copy_password P) (app_V2.change_password P)
           (app_V2.clear_saved_password P) (V2_change_password_plan P)
           (V2_clear_saved_password_plan P)).
Qed.


Lemma V1_run_armed_or_idle (P : Platform) (v : list N) (i : N) (due : Z) (n : N)
  (evs : list event) (s : MainWindow app.PasswordStore * World) :
  no_copy evs = true -> armed_or_idle v i due n s ->
  armed_or_idle v i due n (app.run P evs s).
Proof.
  apply (@run_armed_or_idle _ P (app.copy_password P) (app.change_password P)
           (app.clear_saved_password P) (V1_change_password_plan P)
           (V1_clear_saved_password_plan P)).
Qed.


(** *** The timer invariant holds in every reachable state *)

Lemma keeps_ret {S A} (I : S -> Prop) (a : A) : keeps I (ret a).
Proof. now intros s. Qed.

Lemma keeps_bind {S A B} (I : S -> Prop) (m : M S A) (k : A -> M S B) :
  keeps I m -> (forall a, keeps I (k a)) -> keeps I (bind m k).
Proof.
  intros Hm Hk s Hs. unfold bind. specialize (Hm s Hs).
  destruct (m s) as [[a|e] s']; cbn [snd] in *; [|exact Hm].
  now apply Hk.
Qed.

Lemma timer_inv_plan {Store} (s s' : MainWindow Store * World) :
  clear_plan s' = clear_plan s -> timer_inv s -> timer_inv s'.
Proof.
  unfold clear_plan, timer_inv. intros [= H1 H2 H3 H4]. now rewrite H2, H3, H4.
Qed.

Lemma keeps_of_plan {Store A} (m : M (MainWindow Store * World) A) :
  preserving clear_plan m -> keeps timer_inv m.
Proof. intros H s Hs. eapply timer_inv_plan; [apply H | exact Hs]. Qed.

Lemma keeps_copy_to_clipboard {Store} (pw : list N) :
  keeps timer_inv (@copy_to_clipboard Store pw).
Proof.
  intros [[se st last [ss ti] chk spin lbl] [cf vl cb ck tm ni fl tr sf]] [Hss Hti].
  cbn in Hss, Hti. subst ss.
  destruct ti as [i|]; [destruct Hti as [[due ->] Hlt]|subst tm];
    destruct fl as [|[] fl]; destruct chk;
    cbv -[N.add N.eqb N.lt Z.add Z.mul Z.max]; rewrite ?N.eqb_refl;
    cbv -[N.add N.eqb N.lt Z.add Z.mul Z.max]; repeat split; eauto; lia.
Qed.

Ltac keeps_tac :=
  repeat first
    [ progress intros
    | progress cbv zeta
    | apply keeps_ret
    | apply keeps_copy_to_clipboard
    | match goal with
      | |- keeps _ (if ?b then _ else _) => destruct b
      | |- keeps _ (match ?x with _ => _ end) => destruct x
      end
    | apply keeps_bind
    | apply keeps_of_plan; plan_frame ].

Lemma keeps_V2_copy_password (P : Platform) (dlg : dialog) :
  keeps timer_inv (app_V2.copy_password P dlg).
Proof. unfold app_V2.copy_password, app_V2.refresh_status. keeps_tac. Qed.

Lemma keeps_V1_copy_password (P : Platform) (dlg : dialog) :
  keeps timer_inv (app.copy_password P dlg).
Proof. unfold app.copy_password, app.refresh_status. keeps_tac. Qed.

Lemma keeps_deliver_timeout {Store} (P : Platform) :
  keeps timer_inv (@deliver_timeout Store P).
Proof.
  intros s Hs.
  destruct (QTimer_due (_clear_timer (fst s)) (snd s)) eqn:Hdue;
    [|now rewrite (deliver_not_due P s Hdue)].
  destruct Hs as [Hss Hti].
  destruct (timerId (_clear_timer (fst s))) as [i|] eqn:Hi;
    [|unfold QTimer_due in Hdue; rewrite Hi in Hdue; discriminate].
  destruct Hti as [[due Hq] _].
  destruct s as [[se st last [ss ti] chk spin lbl] [cf vl cb ck tm ni fl tr sf]].
  cbn in Hss, Hi, Hq, Hdue. subst ss ti tm.
  unfold deliver_timeout. unfold bind at 1. cbn [self_get fst _clear_timer].
  unfold bind at 1. cbn [snd]. rewrite Hdue. cbn [singleShot].
  match goal with
  | |- context [bind ?a (fun _ => bind ?b (fun _ => _maybe_clear_clipboard P)) ?s0] =>
      assert (Hpre : exists w1,
                 bind a (fun _ => bind b (fun _ => @_maybe_clear_clipboard Store P)) s0
                 = _maybe_clear_clipboard P
                     ({| settings := se; store := st; _last_copied_value := last;
                         _clear_timer := {| singleShot := true; timerId := None |};
                         chk_auto := chk; spin_secs := spin; status_lbl := lbl |}, w1)
                 /\ qt_timers w1 = [] /\ next_id w1 = ni)
  end.
  { eexists. split.
    - cbv -[_maybe_clear_clipboard N.eqb List.app]. rewrite N.eqb_refl.
      cbv -[_maybe_clear_clipboard N.eqb List.app]. reflexivity.
    - split; reflexivity. }
  destruct Hpre as (w1 & -> & Hq1 & Hn1).
  match goal with
  | |- context [_maybe_clear_clipboard P ?s1] =>
      destruct (slot_resets P s1) as (m' & w' & -> & Hl & Ht & Hq' & Hn')
  end.
  cbn [fst snd _clear_timer] in *. split; cbn [fst snd]; rewrite Ht; cbn;
    [reflexivity | congruence].
Qed.

Section Reachable.

Context {Store : Type} (P : Platform).
Variables copy_password change_password : dialog -> M (MainWindow Store * World) unit.
Variable clear_saved_password : M (MainWindow Store * World) unit.
Hypothesis copy_inv : forall dlg, keeps timer_inv (copy_password dlg).
Hypothesis change_plan : forall dlg, preserving clear_plan (change_password dlg).
Hypothesis clear_saved_plan : preserving clear_plan clear_saved_password.

Lemma step_timer_inv (e : event) (s : MainWindow Store * World) :
  timer_inv s ->
  timer_inv (loop_step P copy_password change_password clear_saved_password e s).
Proof using copy_inv change_plan clear_saved_plan.
  intros H. destruct e; cbn [loop_step].
  - now apply copy_inv.
  - eapply timer_inv_plan; [apply change_plan | exact H].
  - eapply timer_inv_plan; [apply clear_saved_plan | exact H].
  - eapply timer_inv_plan; [apply pres_plan_save_settings | exact H].
  - eapply timer_inv_plan; [|exact H]. reflexivity.
  - eapply timer_inv_plan; [|exact H]. reflexivity.
  - eapply timer_inv_plan; [|exact H]. reflexivity.
  - eapply timer_inv_plan; [|exact H]. reflexivity.
  - now apply keeps_deliver_timeout.
Qed.

Lemma run_timer_inv (evs : list event) :
  forall s : MainWindow Store * World,
    timer_inv s ->
    timer_inv (loop_run P copy_password change_password clear_saved_password evs s).
Proof using copy_inv change_plan clear_saved_plan.
  unfold loop_run. induction evs as [|e evs IH]; intros s H; cbn [List.fold_left];
    [exact H|].
  apply IH. now apply step_timer_inv.
Qed.

End Reachable.

Lemma timer_inv_at_most_one {Store} (s : MainWindow Store * World) :
  timer_inv s -> (List.length (qt_timers (snd s)) <= 1)%nat.
Proof.
  intros [_ H]. destruct (timerId (_clear_timer (fst s))).
  - destruct H as [[due ->] _]. cbn. lia.
  - rewrite H. cbn. lia.
Qed.

Lemma V2_run_timer_inv (P : Platform) (evs : list event)
  (s : MainWindow app_V2.PasswordStore * World) :
  timer_inv s -> timer_inv (app_V2.run P evs s).
Proof.
  apply (@run_timer_inv _ P (app_V2.copy_password P) (app_V2.change_password P)
           (app_V2.clear_saved_password P) (keeps_V2_copy_password P)
           (V2_change_password_plan P) (V2_clear_saved_password_plan P)).
Qed.

Lemma V1_run_timer_inv (P : Platform) (evs : list event)
  (s : MainWindow app.PasswordStore * World) :
  timer_inv s -> timer_inv (app.run P evs s).
Proof.
  apply (@run_timer_inv _ P (app.copy_password P) (app.change_password P)
           (app.clear_saved_password P) (keeps_V1_copy_password P)
           (V1_change_password_plan P) (V1_clear_saved_password_plan P)).
Qed.

(** A window fresh from [__init__] in a world without timers satisfies the
    invariant, so every state the application reaches does. *)
Lemma V2_init_timer_inv (P : Platform) (loaded : Settings) (w : World) :
  qt_timers w = [] ->
  forall m w', app_V2.MainWindow_init P loaded w = (Ok m, w') ->
               timer_inv (m, w') /\ idle (m, w').
Proof.
  intros Hq m w'. unfold app_V2.MainWindow_init.
  destruct (QSpinBox_setValue (auto_clear_secs loaded)) as [spin|e]; [|discriminate].
  match goal with
  | |- context [app_V2.refresh_status P ?s0] =>
      pose proof (V2_refresh_plan P s0) as Hp;
      destruct (app_V2.refresh_status P s0) as [[[]|e] [m1 w1]]
  end; intros [= <- <-].
  unfold clear_plan in Hp. cbn [fst snd] in Hp. injection Hp as Hl Ht Hq' _.
  unfold timer_inv, idle. cbn [fst snd]. rewrite Hl, Ht, Hq', Hq. cbn.
  repeat split; reflexivity.
Qed.

(** *** C6: counterexample and witness *)

(** C6 as stated fails: with the box unchecked [copy_password] still
    records the snapshot; no timer is started. *)
Lemma snapshot_recorded_with_auto_clear_off :
  let st := app_V2.set_in_memory (Some (lit "P@ss1"))
              (app_V2.PasswordStore_init USERNAME_LABEL) in
  let m := set_chk_auto false (new_window st) in
  let dlg := {| accepted := false; text := []; remember_checked := false |} in
  let after := snd (app_V2.copy_password windows_pc dlg (m, quiet_world)) in
  chk_auto m = false
  /\ _last_copied_value m = None
  /\ _last_copied_value (fst after) = Some (lit "P@ss1")
  /\ qt_timers (snd after) = [].
Proof. vm_compute. repeat split; reflexivity. Qed.

(** What follows from it: a timer armed by an earlier copy clears a later
    copy that was made with the box unchecked. *)
Lemma earlier_timer_clears_copy_made_with_box_unchecked :
  let st := app_V2.set_in_memory (Some (lit "P@ss1"))
              (app_V2.PasswordStore_init USERNAME_LABEL) in
  let dlg := {| accepted := false; text := []; remember_checked := false |} in
  let after := app_V2.run windows_pc
                 [Click_copy dlg; Toggle_auto false; Click_copy dlg;
                  Elapse 20000; Deliver_timeout]
                 (new_window st, quiet_world) in
  clipboard (snd after) = ClipEmpty.
Proof. vm_compute. reflexivity. Qed.

Lemma copy_records_snapshot_and_uses_live_settings_witness :
  let m := set_spin_secs 3 (new_window (app_V2.PasswordStore_init USERNAME_LABEL)) in
  let r := copy_to_clipboard (lit "P@ss1") (m, quiet_world) in
  clipboard (snd (snd r)) = ClipText (lit "P@ss1")
  /\ qt_timers (snd (snd r)) = [(0, 3000%Z)].
Proof.
  intros m r.
  assert (Hinv : timer_inv (m, quiet_world)) by (split; reflexivity).
  destruct (@copy_records_snapshot_and_uses_live_settings _ (lit "P@ss1") m quiet_world
              eq_refl Hinv) as (_ & Hc & _ & Ha & _).
  split; [exact Hc|]. destruct (Ha eq_refl) as ((_ & _ & Hq) & _). exact Hq.
Defined.

(** *** C7: every timeout ends idle *)


(** *** C5: a second copy supersedes the first *)

Lemma timer_inv_of_armed_or_idle {Store} (v : list N) (i : N) (due : Z)
  (s : MainWindow Store * World) :
  armed_or_idle v i due (i + 1) s -> timer_inv s.
Proof.
  intros (Hss & Hn & [(_ & Ht & Hq) | (_ & Ht & Hq)]); split; try exact Hss;
    rewrite Ht.
  - split; [now exists due|]. rewrite Hn. lia.
  - exact Hq.
Qed.

(** C5.  In app_V2.py, with the box checked and the clipboard writable:
    "Copy password" while the store holds [pwA], then any events that are
    not copies (time passing, a change of password to [pwB], the spin box),
    then "Copy password" while the store holds [pwB].  After the second
    copy exactly one timer runs; it is a new one, due [max(1, spin_secs)]
    seconds after the second copy, and the snapshot is [pwB].  Through all
    later events that are not copies the manager is armed for [pwB] with
    that timer or idle, and the first copy's timer is never running.  At
    most one timer runs in every state reached by any events at all. *)
Theorem second_copy_supersedes_first (P : Platform) (pwA pwB : list N)
  (dlgA dlgB : dialog) (s0 : MainWindow app_V2.PasswordStore * World)
  (mid later : list event) :
  timer_inv s0 ->
  app_V2._in_memory (store (fst s0)) = Some pwA -> pwA <> [] ->
  chk_auto (fst s0) = true -> next_ok 1 (snd s0) = true ->
  no_copy mid = true -> no_copy later = true ->
  let s1 := app_V2.step P (Click_copy dlgA) s0 in
  let s2 := app_V2.run P mid s1 in
  app_V2._in_memory (store (fst s2)) = Some pwB -> pwB <> [] ->
  chk_auto (fst s2) = true -> next_ok 1 (snd s2) = true ->
  let s3 := app_V2.step P (Click_copy dlgB) s2 in
  let s4 := app_V2.run P later s3 in
  let iA := next_id (snd s0) in
  let iB := next_id (snd s2) in
  let dueB := (clock (snd s2) + Z.max 1 (spin_secs (fst s2)) * 1000)%Z in
  armed pwA iA (clock (snd s0) + Z.max 1 (spin_secs (fst s0)) * 1000)%Z s1
  /\ armed pwB iB dueB s3
  /\ iB = iA + 1
  /\ (armed pwB iB dueB s4 \/ idle s4)
  /\ ~ In iA (List.map fst (qt_timers (snd s4)))
  /\ (forall evs : list event,
        (List.length (qt_timers (snd (app_V2.run P evs s0))) <= 1)%nat).
Proof.
  intros Hinv0 HmemA HpwA Hchk0 Hok0 Hmid Hlater s1 s2 HmemB HpwB Hchk2 Hok2
    s3 s4 iA iB dueB.
  destruct s0 as [m0 w0].
  assert (E1 : s1 = snd (copy_to_clipboard pwA (m0, w0))).
  { unfold s1, app_V2.step. cbn [loop_step].
    now rewrite (V2_copy_password_cached P dlgA m0 w0 HmemA HpwA). }
  clearbody s1. subst s1.
  destruct (copy_to_clipboard_spec pwA Hok0 Hinv0) as (_ & _ & _ & HA & _).
  destruct (HA Hchk0) as (HarmA & _ & HssA & HnA). clear HA.
  assert (H1 : armed_or_idle pwA iA
                 (clock w0 + Z.max 1 (spin_secs m0) * 1000)%Z (iA + 1)
                 (snd (copy_to_clipboard pwA (m0, w0))))
    by (split; [exact HssA|]; split; [exact HnA|]; now left).
  pose proof (@V2_run_armed_or_idle P _ _ _ _ mid _ Hmid H1) as H2. fold s2 in H2.
  pose proof (timer_inv_of_armed_or_idle H2) as Hinv2.
  assert (HiB : iB = iA + 1) by (destruct H2 as (_ & Hn & _); exact Hn).
  destruct s2 as [m2 w2] eqn:Es2.
  assert (E3 : s3 = snd (copy_to_clipboard pwB (m2, w2))).
  { unfold s3, app_V2.step. cbn [loop_step].
    now rewrite (V2_copy_password_cached P dlgB m2 w2 HmemB HpwB). }
  clearbody s3. subst s3.
  destruct (copy_to_clipboard_spec pwB Hok2 Hinv2) as (_ & _ & _ & HB & _).
  destruct (HB Hchk2) as (HarmB & _ & HssB & HnB). clear HB.
  assert (H3 : armed_or_idle pwB iB dueB (iB + 1)
                 (snd (copy_to_clipboard pwB (m2, w2))))
    by (split; [exact HssB|]; split; [exact HnB|]; now left).
  pose proof (@V2_run_armed_or_idle P _ _ _ _ later _ Hlater H3) as H4. fold s4 in H4.
  split; [exact HarmA|]. split; [exact HarmB|]. split; [exact HiB|].
  destruct H4 as (_ & _ & Hor). split; [exact Hor|]. split.
  - destruct Hor as [(_ & _ & Hq) | (_ & _ & Hq)]; rewrite Hq; cbn; lia.
  - intros evs. apply timer_inv_at_most_one. now apply V2_run_timer_inv.
Qed.

Lemma second_copy_supersedes_first_witness :
  let st := app_V2.set_in_memory (Some (lit "A")) (app_V2.PasswordStore_init USERNAME_LABEL) in
  let s0 := (set_spin_secs 10 (new_window st), quiet_world) in
  let no_dialog := {| accepted := false; text := []; remember_checked := false |} in
  let to_B := {| accepted := true; text := lit "B"; remember_checked := false |} in
  let mid := [Elapse 5000; Click_change to_B; Spin_secs 3] in
  let later := [Elapse 3000; Deliver_timeout; Elapse 2000; Deliver_timeout] in
  let s2 := app_V2.run windows_pc mid (app_V2.step windows_pc (Click_copy no_dialog) s0) in
  let s3 := app_V2.step windows_pc (Click_copy no_dialog) s2 in
  _last_copied_value (fst s3) = Some (lit "B")
  /\ qt_timers (snd s3) = [(next_id (snd s2), 8000%Z)]
  /\ next_id (snd s2) = 1
  /\ ~ In 0 (List.map fst (qt_timers (snd (app_V2.run windows_pc later s3)))).
Proof.
  intros st s0 no_dialog to_B mid later s2 s3.
  assert (Hinv : timer_inv s0) by (split; reflexivity).
  assert (HmemB : app_V2._in_memory (store (fst s2)) = Some (lit "B"))
    by (vm_compute; reflexivity).
  assert (Hchk2 : chk_auto (fst s2) = true) by (vm_compute; reflexivity).
  assert (Hok2 : next_ok 1 (snd s2) = true) by (vm_compute; reflexivity).
  assert (Hclock : (clock (snd s2) + Z.max 1 (spin_secs (fst s2)) * 1000)%Z = 8000%Z)
    by (vm_compute; reflexivity).
  destruct (@second_copy_supersedes_first windows_pc (lit "A") (lit "B")
              no_dialog no_dialog s0 mid later
              Hinv eq_refl ltac:(discriminate) eq_refl eq_refl eq_refl eq_refl
              HmemB ltac:(discriminate) Hchk2 Hok2)
    as (_ & (Hl & _ & Hq) & HiB & _ & Hnot & _).
  split; [exact Hl|]. split; [|split; [exact HiB | exact Hnot]].
  rewrite <- Hclock. exact Hq.
Defined.

(** *** The theorems at work on concrete states *)

(** C4 on a record written by another login session: nothing is returned
    and nothing is cached. *)
Lemma get_never_raises_witness :
  let st := app_V2.PasswordStore_init USERNAME_LABEL in
  exists w',
    app_V2.PasswordStore_get windows_pc_other_user (st, windows_world_old)
    = (Ok None, (st, w')).
Proof.
  intros st.
  destruct (get_never_raises windows_pc_other_user st windows_world_old)
    as (r & st' & w' & E & _ & Hmiss & _).
  specialize (Hmiss eq_refl).
  assert (Hr : r = None).
  { pose proof (f_equal fst E) as Hf. vm_compute in Hf. now injection Hf as <-. }
  subst r. subst st'. exists w'. exact E.
Defined.


(** C8 with the directory call failing. *)
Lemma set_failure_swallowed_secret_stays_witness :
  let st := app_V2.PasswordStore_init USERNAME_LABEL in
  let w := set_faults [Faulty] quiet_world in
  exists st' w',
    app_V2.PasswordStore_set linux_pc (lit "hunter2") true (st, w) = (Ok tt, (st', w'))
    /\ cred_file w' = None
    /\ app_V2.PasswordStore_get linux_pc (st', w') = (Ok (Some (lit "hunter2")), (st', w')).
Proof.
  intros st w.
  destruct (set_failure_swallowed_secret_stays linux_pc (lit "hunter2") w) as [H _].
  destruct (H st) as (st' & w' & E & _ & Hget).
  exists st', w'. split; [exact E|]. split.
  - assert (Hc : cred_file (snd (snd (app_V2.PasswordStore_set linux_pc (lit "hunter2")
                                         true (st, w)))) = None) by reflexivity.
    rewrite E in Hc. exact Hc.
  - apply Hget. discriminate.
Defined.

(** The rejection on an empty dialog. *)
Lemma empty_password_rejected_witness :
  let dlg := {| accepted := true; text := []; remember_checked := true |} in
  let window := new_window (app_V2.PasswordStore_init USERNAME_LABEL) in
  app_V2.change_password windows_pc dlg (window, windows_world_old)
  = (Ok tt, (window, set_trace [ObsWarning (lit "Password required")] windows_world_old)).
Proof.
  intros dlg window.
  destruct (empty_password_rejected windows_pc dlg) as (H & _).
  apply (H window windows_world_old eq_refl eq_refl).
Defined.

(** ** Further properties of the two programs *)

(** *** What [get] returns and caches *)

(** Whatever [get()] of app_V2.py returns is not empty and is cached. *)
Lemma V2_get_result (P : Platform) (st : app_V2.PasswordStore) (w : World) :
  exists r st' w',
    app_V2.PasswordStore_get P (st, w) = (Ok r, (st', w'))
    /\ match r with
       | None => st' = st /\ truthy_opt (app_V2._in_memory st) = false
       | Some pw => pw <> [] /\ st' = app_V2.set_in_memory (Some pw) st
       end.
Proof.
  destruct (truthy_opt (app_V2._in_memory st)) eqn:Hmem.
  { exists (app_V2._in_memory st), st, w. rewrite (V2_get_cached P st w Hmem).
    split; [reflexivity|]. destruct st as [lbl [[|c r]|]]; try discriminate Hmem.
    split; [discriminate | reflexivity]. }
  destruct st as [lbl mem]. cbn [app_V2._in_memory] in Hmem.
  destruct w as [cf v cb ck tm ni fl tr sf].
  unfold app_V2.PasswordStore_get. store_eval. rewrite Hmem.
  destruct fl as [|[] fl]; destruct cf as [[|j]|]; store_eval;
    try (exists None; eexists; eexists; split; [reflexivity|]; now split).
  all: destruct (py_get j (lit "dpapi")) as [x|e]; store_eval;
    try (exists None; eexists; eexists; split; [reflexivity|]; now split).
  all: destruct (truthy (py_or x (JStr []))); store_eval;
    try (exists None; eexists; eexists; split; [reflexivity|]; now split).
  all: match goal with
       | |- context [app_V2.dpapi_decrypt ?p ?a ?b] =>
           destruct (app_V2.dpapi_decrypt p a b) as [[[[|c r]|]|e] w2]
       end; store_eval;
    try (exists None; eexists; eexists; split; [reflexivity|]; now split).
  all: exists (Some (c :: r)); eexists; eexists; split; [reflexivity|];
    split; [discriminate | reflexivity].
Qed.

(** The same for app.py. *)
Lemma V1_get_result (P : Platform) (st : app.PasswordStore) (w : World) :
  exists r st' w',
    app.PasswordStore_get P (st, w) = (Ok r, (st', w'))
    /\ match r with
       | None => st' = st /\ truthy_opt (app._in_memory st) = false
       | Some pw => pw <> [] /\ st' = app.set_in_memory (Some pw) st
       end.
Proof.
  destruct (truthy_opt (app._in_memory st)) eqn:Hmem.
  { exists (app._in_memory st), st, w. rewrite (V1_get_cached P st w Hmem).
    split; [reflexivity|]. destruct st as [svc acc [[|c r]|]]; try discriminate Hmem.
    split; [discriminate | reflexivity]. }
  destruct st as [svc acc mem]. cbn [app._in_memory] in Hmem.
  unfold app.PasswordStore_get. mred. cbn [app._in_memory]. rewrite Hmem.
  destruct (keyring_present P);
    [|exists None; eexists; eexists; split; [reflexivity|]; now split].
  mred. cbn [app.service app.account].
  destruct (faults w) as [|[] fl];
    try (exists None; eexists; eexists; split; [reflexivity|]; now split).
  all: match goal with
       | |- context [vault ?w0 !! ?k] => destruct (vault w0 !! k) as [[|c r]|]
       end; cbn [truthy_opt];
    try (exists None; eexists; eexists; split; [reflexivity|]; now split).
  all: exists (Some (c :: r)); eexists; eexists; split; [reflexivity|];
    split; [discriminate | reflexivity].
Qed.

(** X1.  A password that [get()] has returned once is served from memory
    from then on: the next [get()] returns the same password and reaches
    neither the record, the keyring nor DPAPI, in either file. *)
Theorem get_serves_from_cache_after_first_success (P : Platform) :
  (forall (st : app_V2.PasswordStore) (w : World) (pw : list N),
     fst (app_V2.PasswordStore_get P (st, w)) = Ok (Some pw) ->
     let st' := fst (snd (app_V2.PasswordStore_get P (st, w))) in
     pw <> []
     /\ forall w'', app_V2.PasswordStore_get P (st', w'') = (Ok (Some pw), (st', w'')))
  /\ (forall (st : app.PasswordStore) (w : World) (pw : list N),
        fst (app.PasswordStore_get P (st, w)) = Ok (Some pw) ->
        let st' := fst (snd (app.PasswordStore_get P (st, w))) in
        pw <> []
        /\ forall w'', app.PasswordStore_get P (st', w'') = (Ok (Some pw), (st', w''))).
Proof.
  split; intros st w pw.
  - destruct (V2_get_result P st w) as (r & st' & w' & -> & Hr). cbn [fst snd].
    intros [= ->]. destruct Hr as [Hpw ->]. split; [exact Hpw|]. intros w''.
    rewrite V2_get_cached; [reflexivity|]. cbn. now destruct pw.
  - destruct (V1_get_result P st w) as (r & st' & w' & -> & Hr). cbn [fst snd].
    intros [= ->]. destruct Hr as [Hpw ->]. split; [exact Hpw|]. intros w''.
    rewrite V1_get_cached; [reflexivity|]. cbn. now destruct pw.
Qed.

Lemma get_serves_from_cache_after_first_success_witness :
  let st := app_V2.PasswordStore_init USERNAME_LABEL in
  let st' := fst (snd (app_V2.PasswordStore_get windows_pc (st, windows_world_old))) in
  app_V2.PasswordStore_get windows_pc (st', quiet_world)
  = (Ok (Some (lit "old")), (st', quiet_world)).
Proof.
  intros st st'.
  destruct (get_serves_from_cache_after_first_success windows_pc) as [H _].
  apply (H st windows_world_old (lit "old")). vm_compute. reflexivity.
Defined.

(** X2.  [get()] and [refresh_status()] only read: whatever fails, the
    record, the keyring, the clipboard and the timers are as before, in
    either file. *)
Theorem get_and_refresh_status_only_read (P : Platform) :
  let persisted := fun w => (cred_file w, vault w, clipboard w, qt_timers w) in
  preserving (fun s => persisted (snd s)) (app_V2.PasswordStore_get P)
  /\ preserving (fun s => persisted (snd s)) (app_V2.refresh_status P)
  /\ preserving (fun s => persisted (snd s)) (app.PasswordStore_get P)
  /\ preserving (fun s => persisted (snd s)) (app.refresh_status P).
Proof.
  intros persisted.
  assert (H2 := @pres_V2_get _ persisted (fun _ _ => eq_refl) (fun _ _ _ => eq_refl) P).
  assert (H1 := @pres_V1_get _ persisted (fun _ _ => eq_refl) P).
  split; [exact H2|]. split; [|split; [exact H1|]].
  - unfold app_V2.refresh_status.
    apply pres_bind; [apply (pres_in_store_world persisted); exact H2|].
    intros r. cbv zeta. destruct r; apply pres_self_set; reflexivity.
  - unfold app.refresh_status.
    apply pres_bind; [apply (pres_in_store_world persisted); exact H1|].
    intros r. cbv zeta. destruct r; [destruct (keyring_present P)|];
      apply pres_self_set; reflexivity.
Qed.

(** X3.  [get()] of app.py never raises.  With a non-empty cached
    password it returns it and touches nothing; without the keyring
    package it returns [None] and touches nothing; with the package, when
    the call works, it returns the keyring's entry for the store's service
    and account if that is a non-empty password, caching it, and [None]
    otherwise; a failing keyring call gives [None] with the cache as it
    was. *)
Theorem keyring_get_never_raises (P : Platform) (st : app.PasswordStore) (w : World) :
  exists r st' w',
    app.PasswordStore_get P (st, w) = (Ok r, (st', w'))
    /\ (truthy_opt (app._in_memory st) = true ->
        r = app._in_memory st /\ st' = st /\ w' = w)
    /\ (truthy_opt (app._in_memory st) = false -> keyring_present P = false ->
        r = None /\ st' = st /\ w' = w)
    /\ (truthy_opt (app._in_memory st) = false -> keyring_present P = true ->
        next_ok 1 w = true ->
        let entry := vault w !! (app.service st, app.account st) in
        r = (if truthy_opt entry then entry else None)
        /\ st' = (if truthy_opt entry then app.set_in_memory entry st else st))
    /\ (r = None -> st' = st).
Proof.
  destruct (truthy_opt (app._in_memory st)) eqn:Hmem.
  { exists (app._in_memory st), st, w. rewrite (V1_get_cached P st w Hmem).
    repeat split; congruence. }
  destruct st as [svc acc mem]. cbn [app._in_memory] in Hmem.
  destruct w as [cf v cb ck tm ni fl tr sf].
  unfold app.PasswordStore_get, next_ok. mred. cbn [app._in_memory]. rewrite Hmem.
  destruct (keyring_present P);
    [|exists None; eexists; eexists; split; [reflexivity|];
      repeat split; intros; congruence].
  destruct fl as [|[] fl]; mred;
    cbn [app.service app.account faults vault set_faults List.firstn List.forallb andb];
    try (exists None; eexists; eexists; split; [reflexivity|];
         repeat split; intros; congruence).
  all: destruct (v !! (svc, acc)) as [[|c r]|]; cbn [truthy_opt]; mred;
    eexists; eexists; eexists; (split; [reflexivity|]);
    repeat split; intros; congruence.
Qed.

Lemma keyring_get_never_raises_witness :
  let st := app.PasswordStore_init app.SERVICE_NAME USERNAME_LABEL in
  fst (app.PasswordStore_get linux_pc (st, keyring_world_old)) = Ok (Some (lit "old")).
Proof.
  intros st.
  destruct (keyring_get_never_raises linux_pc st keyring_world_old)
    as (r & st' & w' & -> & _ & _ & Hk & _).
  destruct (Hk eq_refl eq_refl eq_refl) as [-> _]. reflexivity.
Defined.

(** *** Deleting what was remembered *)

(** X4.  [clear_device_store()] returns normally and leaves the store
    object alone.  Of the world it can change only the fault script and
    the record file (app_V2.py) or this store's keyring entry (app.py):
    afterwards the record or entry is what it was or is gone, and it is
    gone whenever the delete call works.  With no record on disk
    app_V2.py makes no call at all and the world is exactly what it was;
    app.py without the keyring package does nothing, and with an absent
    entry it leaves the keyring as it was. *)
Theorem clear_device_store_removes_only_the_record (P : Platform) :
  (forall (st : app_V2.PasswordStore) (w : World),
     exists w',
       app_V2.PasswordStore_clear_device_store (st, w) = (Ok tt, (st, w'))
       /\ (vault w', clipboard w', clock w', qt_timers w', next_id w', trace w',
           settings_file w')
          = (vault w, clipboard w, clock w, qt_timers w, next_id w, trace w,
             settings_file w)
       /\ (cred_file w' = cred_file w \/ cred_file w' = None)
       /\ (cred_file w = None -> w' = w)
       /\ (next_ok 1 w = true -> cred_file w' = None))
  /\ (forall (st : app.PasswordStore) (w : World),
        let key := (app.service st, app.account st) in
        exists w',
          app.PasswordStore_clear_device_store P (st, w) = (Ok tt, (st, w'))
          /\ (cred_file w', clipboard w', clock w', qt_timers w', next_id w', trace w',
              settings_file w')
             = (cred_file w, clipboard w, clock w, qt_timers w, next_id w, trace w,
                settings_file w)
          /\ (vault w' = vault w \/ vault w' = delete key (vault w))
          /\ (keyring_present P = false -> w' = w)
          /\ (vault w !! key = None -> vault w' = vault w)
          /\ (keyring_present P = true -> next_ok 1 w = true -> vault w' !! key = None)).
Proof.
  split.
  - intros [lbl mem] [cf v cb ck tm ni fl tr sf]. unfold next_ok. cbn [faults cred_file].
    unfold app_V2.PasswordStore_clear_device_store.
    destruct cf as [c|]; destruct fl as [|[] fl]; mred;
      cbn [cred_file faults set_faults set_cred_file fst snd];
      eexists; (split; [reflexivity|]);
      cbn [vault clipboard clock qt_timers next_id trace settings_file cred_file];
      repeat split; try (now left); try (now right); try reflexivity;
      intros H; discriminate H.
  - intros [svc acc mem] [cf v cb ck tm ni fl tr sf]. unfold next_ok.
    cbn [app.service app.account faults vault].
    unfold app.PasswordStore_clear_device_store.
    destruct (keyring_present P);
      [|eexists; split; [reflexivity|]; repeat split; try (now left); intros; congruence].
    destruct fl as [|[] fl]; mred;
      cbn [app.service app.account faults vault set_faults fst snd];
      destruct (v !! (svc, acc)) eqn:Hv; mred;
      cbn [fst snd vault set_vault faults];
      eexists; (split; [reflexivity|]);
      cbn [vault clipboard clock qt_timers next_id trace settings_file cred_file];
      repeat split; try (now left); try (now right); try reflexivity;
      try (intros H; discriminate H); intros; try apply lookup_delete_eq;
      try assumption; try congruence;
      match goal with H : forallb _ _ = true |- _ => discriminate H end.
Qed.

Lemma clear_device_store_removes_only_the_record_witness :
  let st := app_V2.PasswordStore_init USERNAME_LABEL in
  exists w',
    app_V2.PasswordStore_clear_device_store (st, windows_world_old) = (Ok tt, (st, w'))
    /\ cred_file w' = None
    /\ app_V2.PasswordStore_clear_device_store (st, w') = (Ok tt, (st, w')).
Proof.
  intros st.
  destruct (clear_device_store_removes_only_the_record windows_pc) as [H _].
  destruct (H st windows_world_old) as (w' & E & _ & _ & _ & Hgone).
  specialize (Hgone eq_refl).
  exists w'. split; [exact E|]. split; [exact Hgone|].
  destruct (H st w') as (w'' & E' & _ & _ & Hsame & _).
  rewrite E'. now rewrite (Hsame Hgone).
Defined.
(** X5.  "Clear saved password": when there is nothing persisted, or the
    delete call works, the cache is empty afterwards, the record (the
    keyring entry) is gone, and the status line says that no password is
    saved. *)
Theorem clear_saved_password_forgets (P : Platform) :
  (forall (m : MainWindow app_V2.PasswordStore) (w : World),
     cred_file w = None \/ next_ok 1 w = true ->
     let after := snd (app_V2.clear_saved_password P (m, w)) in
     app_V2._in_memory (store (fst after)) = None
     /\ cred_file (snd after) = None
     /\ status_lbl (fst after) = app_V2.STATUS_NONE)
  /\ (forall (m : MainWindow app.PasswordStore) (w : World),
        let key := (app.service (store m), app.account (store m)) in
        keyring_present P = false \/ vault w !! key = None \/ next_ok 1 w = true ->
        let after := snd (app.clear_saved_password P (m, w)) in
        app._in_memory (store (fst after)) = None
        /\ (keyring_present P = true -> vault (snd after) !! key = None)
        /\ status_lbl (fst after) = app.STATUS_NONE).
Proof.
  split.
  - intros [se [lbl mem] last tmr chk spin sl] [cf v cb ck tm ni fl tr sf] H.
    unfold next_ok in H. cbn [cred_file faults] in H.
    destruct cf as [c|]; destruct fl as [|[] [|[] fl]];
      try (destruct H as [H|H]; discriminate H); clear H;
      unfold app_V2.clear_saved_password, app_V2.PasswordStore_clear_device_store,
        app_V2.PasswordStore_clear_memory, app_V2.refresh_status,
        app_V2.PasswordStore_get;
      repeat (mred;
        cbn [store app_V2.label app_V2._in_memory faults cred_file set_faults
             set_cred_file set_store app_V2.set_in_memory truthy_opt fst snd
             status_lbl set_status_lbl set_trace]);
      repeat split; reflexivity.
  - intros [se [svc acc mem] last tmr chk spin sl] [cf v cb ck tm ni fl tr sf].
    cbn [store app.service app.account]. intros H.
    unfold next_ok in H. cbn [vault faults] in H.
    unfold app.clear_saved_password, app.PasswordStore_clear_device_store,
      app.PasswordStore_clear_memory, app.refresh_status, app.PasswordStore_get.
    destruct (keyring_present P); [|cbv -[lit List.app]; repeat split; congruence].
    destruct (v !! (svc, acc)) as [old|] eqn:Hv.
    + destruct H as [H | [H | H]]; try discriminate H.
      destruct fl as [|[] [|[] fl]]; try discriminate H; mred;
        cbn [store app.service app.account app._in_memory faults vault set_faults
             set_vault set_store app.set_in_memory truthy_opt fst snd];
        rewrite ?Hv; mred;
        cbn [store app.service app.account app._in_memory faults vault set_faults
             set_vault set_store app.set_in_memory truthy_opt fst snd];
        rewrite ?lookup_delete_eq; mred;
        cbn [store status_lbl set_status_lbl set_store app._in_memory vault
             set_trace set_vault set_faults truthy_opt fst snd];
        repeat split; intros; try apply lookup_delete_eq; reflexivity.
    + clear H.
      destruct fl as [|[] [|[] fl]]; mred;
        cbn [store app.service app.account app._in_memory faults vault set_faults
             set_vault set_store app.set_in_memory truthy_opt fst snd];
        rewrite ?Hv; mred;
        cbn [store app.service app.account app._in_memory faults vault set_faults
             set_vault set_store app.set_in_memory truthy_opt fst snd];
        rewrite ?Hv; mred;
        cbn [store status_lbl set_status_lbl set_store app._in_memory vault
             set_trace set_vault set_faults truthy_opt fst snd];
        repeat split; intros; try assumption; reflexivity.
Qed.

Lemma clear_saved_password_forgets_witness :
  let m := new_window (app_V2.set_in_memory (Some (lit "old"))
                         (app_V2.PasswordStore_init USERNAME_LABEL)) in
  let after := snd (app_V2.clear_saved_password windows_pc (m, windows_world_old)) in
  app_V2._in_memory (store (fst after)) = None /\ cred_file (snd after) = None.
Proof.
  intros m after.
  destruct (clear_saved_password_forgets windows_pc) as [H _].
  destruct (H m windows_world_old (or_intror eq_refl)) as (H1 & H2 & _).
  split; assumption.
Defined.

(** When the delete call fails the record is still there, and
    [refresh_status] reads it back into the cache. *)
Lemma clear_saved_password_with_failing_delete :
  let m := new_window (app_V2.set_in_memory (Some (lit "old"))
                         (app_V2.PasswordStore_init USERNAME_LABEL)) in
  let after := snd (app_V2.clear_saved_password windows_pc
                      (m, set_faults [Faulty] windows_world_old)) in
  app_V2._in_memory (store (fst after)) = Some (lit "old")
  /\ status_lbl (fst after) = app_V2.STATUS_STORED.
Proof. vm_compute. split; reflexivity. Qed.

(** X6.  Changing or clearing the password does not cancel a pending
    auto-clear: in either file the snapshot, the timer and the running
    timers are what they were, whatever the dialog returns and whatever
    fails. *)
Theorem password_actions_keep_pending_clear (P : Platform) (v : list N) (i : N) (due : Z) :
  (forall (s : MainWindow app_V2.PasswordStore * World) dlg,
     armed v i due s ->
     armed v i due (snd (app_V2.change_password P dlg s))
     /\ armed v i due (snd (app_V2.clear_saved_password P s)))
  /\ (forall (s : MainWindow app.PasswordStore * World) dlg,
        armed v i due s ->
        armed v i due (snd (app.change_password P dlg s))
        /\ armed v i due (snd (app.clear_saved_password P s))).
Proof.
  assert (Hplan : forall Store (s s' : MainWindow Store * World),
             clear_plan s' = clear_plan s -> armed v i due s -> armed v i due s').
  { intros Store s s'. unfold clear_plan, armed. intros [= H1 H2 H3 _].
    now rewrite H1, H2, H3. }
  split; intros s dlg Ha; split; (eapply Hplan; [|exact Ha]).
  - apply V2_change_password_plan.
  - apply V2_clear_saved_password_plan.
  - apply V1_change_password_plan.
  - apply V1_clear_saved_password_plan.
Qed.

Lemma password_actions_keep_pending_clear_witness :
  let st := app_V2.set_in_memory (Some (lit "P@ss1"))
              (app_V2.PasswordStore_init USERNAME_LABEL) in
  let dlg := {| accepted := false; text := []; remember_checked := false |} in
  let s := app_V2.step windows_pc (Click_copy dlg) (new_window st, quiet_world) in
  armed (lit "P@ss1") 0 20000%Z (snd (app_V2.clear_saved_password windows_pc s)).
Proof.
  intros st dlg s.
  destruct (password_actions_keep_pending_clear windows_pc (lit "P@ss1") 0 20000%Z)
    as [H _].
  apply (H s dlg). repeat split; reflexivity.
Defined.

(** What [dpapi_encrypt] does with a string that has no UTF-8 encoding:
    it raises before any call into the environment. *)
Lemma dpapi_encrypt_unencodable (P : Platform) (s : list N) (w : World) :
  encodable s = false -> exists e, app_V2.dpapi_encrypt P s w = (Raise e, w).
Proof.
  intros H. unfold app_V2.dpapi_encrypt.
  destruct (utf8_encode s) as [bs|e] eqn:E.
  - apply utf8_encode_Ok_encodable in E. congruence.
  - exists e. destruct (IS_WINDOWS P); reflexivity.
Qed.

(** X7.  [PasswordStore.set] with "remember": the record afterwards is
    the old one, a truncated file, or a whole new record holding what
    [dpapi_encrypt] returned; a password that cannot be encoded leaves
    the old record in place; and the call never raises. *)
Theorem set_writes_whole_record_or_fails_safely (P : Platform) (s : list N)
  (st : app_V2.PasswordStore) (w : World) :
  let after := snd (app_V2.PasswordStore_set P s true (st, w)) in
  fst (app_V2.PasswordStore_set P s true (st, w)) = Ok tt
  /\ (cred_file (snd after) = cred_file w
      \/ cred_file (snd after) = Some Unparseable
      \/ exists enc w1,
           fst (app_V2.dpapi_encrypt P s w1) = Ok enc
           /\ cred_file (snd after)
              = Some (Parsed (JDict [(lit "label", JStr (app_V2.label st));
                                     (lit "dpapi", JStr enc)])))
  /\ (encodable s = false -> cred_file (snd after) = cred_file w).
Proof.
  assert (Hcf : forall w0, cred_file (snd (app_V2.dpapi_encrypt P s w0)) = cred_file w0).
  { intros w0.
    apply (@pres_dpapi_encrypt _ cred_file (fun _ _ => eq_refl) (fun _ _ _ => eq_refl)). }
  destruct st as [lbl mem]. destruct w as [cf v cb ck tm ni fl tr sf].
  unfold app_V2.PasswordStore_set.
  destruct fl as [|[] fl]; mred;
    cbn [app_V2.label app_V2.set_in_memory faults set_faults cred_file fst snd].
  3: { repeat split; try (left; reflexivity); reflexivity. }
  all: match goal with |- context [app_V2.dpapi_encrypt ?p ?s0 ?w0] =>
         set (w1 := w0);
         pose proof (Hcf w1) as Hc;
         pose proof (fun H => @dpapi_encrypt_unencodable p s0 w1 H) as Hu;
         destruct (app_V2.dpapi_encrypt p s0 w1) as [[enc|e] w2] eqn:E
       end.
  all: cbn [fst snd cred_file] in Hc; subst w1; cbn [cred_file] in Hc.
  all: try (repeat split; try (left; exact Hc); try (intros; exact Hc); reflexivity).
  all: destruct w2 as [cf2 v2 cb2 ck2 tm2 ni2 fl2 tr2 sf2]; cbn [cred_file] in Hc; subst cf2.
  all: destruct fl2 as [|[] [|[] fl2]]; mred;
    cbn [app_V2.label app_V2.set_in_memory faults set_faults set_cred_file cred_file fst snd].
  all: split; [reflexivity|split].
  all: try (intros HH; destruct (Hu HH) as [e He]; discriminate He).
  all: try (left; reflexivity).
  all: try (right; left; reflexivity).
  all: right; right; eexists enc, _; rewrite E; split; reflexivity.
Qed.

Lemma set_writes_whole_record_or_fails_safely_witness :
  let st := app_V2.PasswordStore_init USERNAME_LABEL in
  encodable [0xD800] = false
  /\ cred_file (snd (snd (app_V2.PasswordStore_set linux_pc [0xD800] true
                            (st, linux_world_old))))
     = cred_file linux_world_old.
Proof.
  intros st. split; [reflexivity|].
  apply (set_writes_whole_record_or_fails_safely linux_pc [0xD800] st linux_world_old).
  reflexivity.
Defined.

(** Evaluation of the window's actions: the monad, then the projections
    of the records it exposes. *)
Ltac win_eval :=
  repeat (mred;
    cbn [store settings status_lbl set_status_lbl set_store set_trace trace
         app_V2.label app_V2._in_memory app_V2.set_in_memory
         app.service app.account app._in_memory app.set_in_memory
         faults cred_file vault set_faults set_cred_file set_vault
         truthy truthy_opt negb andb accepted text remember_checked fst snd]).

(** X8.  app.py, "Set / Change password" with "remember" unchecked, the
    keyring present and its delete call working: the entry is removed, the
    new password lives in the cache only, and a store started later finds
    nothing. *)
Theorem session_only_change_removes_keyring_entry (P : Platform)
  (m : MainWindow app.PasswordStore) (w : World) (pw : list N) :
  pw <> [] ->
  keyring_present P = true ->
  next_ok 1 w = true ->
  let dlg := {| accepted := true; text := pw; remember_checked := false |} in
  let key := (app.service (store m), app.account (store m)) in
  let after := snd (app.change_password P dlg (m, w)) in
  vault (snd after) !! key = None
  /\ app._in_memory (store (fst after)) = Some pw
  /\ status_lbl (fst after) = app.STATUS_STORED
  /\ fst (app.PasswordStore_get P
            (app.PasswordStore_init (app.service (store m)) (app.account (store m)),
             snd after)) = Ok None.
Proof.
  intros Hpw HP Hok.
  destruct m as [se [svc acc mem] last tmr chk spin sl].
  destruct w as [cf v cb ck tm ni fl tr sf].
  destruct pw as [|c r]; [congruence|]. clear Hpw.
  unfold next_ok in Hok. cbn [faults] in Hok.
  cbn [store app.service app.account].
  unfold app.change_password, app.PasswordStore_clear_device_store, app.PasswordStore_set,
    app.refresh_status, app.PasswordStore_get, app.PasswordStore_init.
  rewrite HP.
  destruct (v !! (svc, acc)) as [old|] eqn:Hv;
    destruct fl as [|[] [|[] fl]]; try discriminate Hok;
    win_eval; rewrite ?Hv; win_eval; rewrite ?lookup_delete_eq, ?Hv; win_eval;
    repeat split; try apply lookup_delete_eq; try assumption; reflexivity.
Qed.

Lemma session_only_change_removes_keyring_entry_witness :
  let m := new_window (app.PasswordStore_init app.SERVICE_NAME USERNAME_LABEL) in
  let dlg := {| accepted := true; text := lit "new"; remember_checked := false |} in
  vault (snd (snd (app.change_password linux_pc dlg (m, keyring_world_old))))
    !! (app.SERVICE_NAME, USERNAME_LABEL) = None.
Proof.
  intros m dlg.
  apply (@session_only_change_removes_keyring_entry linux_pc m keyring_world_old (lit "new"));
    [discriminate | reflexivity | reflexivity].
Defined.

(** X9.  app_V2.py off Windows: "Set / Change password" never writes the
    record, whatever the "remember" box says; it keeps the password in
    the cache, tells the user so when the box was checked, and calls
    nothing that can fail. *)
Theorem change_password_off_windows_is_session_only (P : Platform)
  (m : MainWindow app_V2.PasswordStore) (w : World) (pw : list N) (remember : bool) :
  IS_WINDOWS P = false ->
  pw <> [] ->
  let dlg := {| accepted := true; text := pw; remember_checked := remember |} in
  app_V2.change_password P dlg (m, w)
  = (Ok tt,
     (set_status_lbl app_V2.STATUS_STORED
        (set_store (app_V2.set_in_memory (Some pw) (store m)) m),
      set_trace (trace w
                 ++ (if remember then [ObsInformation (lit "Note")] else [])
                 ++ [ObsTray (lit "Saved")]) w)).
Proof.
  intros HP Hpw.
  destruct m as [se [lbl mem] last tmr chk spin sl].
  destruct w as [cf v cb ck tm ni fl tr sf].
  destruct pw as [|c r]; [congruence|]. clear Hpw.
  unfold app_V2.change_password, app_V2.refresh_status, app_V2.PasswordStore_get,
    app_V2.PasswordStore_set.
  rewrite HP. destruct remember; win_eval; rewrite <- ?app_assoc; reflexivity.
Qed.

Lemma change_password_off_windows_is_session_only_witness :
  let m := new_window (app_V2.PasswordStore_init USERNAME_LABEL) in
  let dlg := {| accepted := true; text := lit "pw"; remember_checked := true |} in
  cred_file (snd (snd (app_V2.change_password linux_pc dlg (m, linux_world_old))))
  = cred_file linux_world_old.
Proof.
  intros m dlg. subst dlg.
  rewrite (@change_password_off_windows_is_session_only linux_pc m linux_world_old
             (lit "pw") true eq_refl); [reflexivity | discriminate].
Defined.

(** X10.  After [refresh_status] the status line tells whether a password
    is in the cache: "stored" (in app.py "for this session" when there is
    no keyring) exactly when the cache is non-empty, "none saved"
    otherwise; the labels are pairwise different, and the call never
    raises. *)
Theorem status_line_reflects_cache (P : Platform) :
  (forall (s : MainWindow app_V2.PasswordStore * World),
     let out := app_V2.refresh_status P s in
     fst out = Ok tt
     /\ status_lbl (fst (snd out))
        = (if truthy_opt (app_V2._in_memory (store (fst (snd out))))
           then app_V2.STATUS_STORED else app_V2.STATUS_NONE))
  /\ (forall (s : MainWindow app.PasswordStore * World),
        let out := app.refresh_status P s in
        fst out = Ok tt
        /\ status_lbl (fst (snd out))
           = (if truthy_opt (app._in_memory (store (fst (snd out))))
              then (if keyring_present P then app.STATUS_STORED else app.STATUS_SESSION)
              else app.STATUS_NONE))
  /\ app_V2.STATUS_STORED <> app_V2.STATUS_NONE
  /\ app.STATUS_STORED <> app.STATUS_NONE
  /\ app.STATUS_SESSION <> app.STATUS_NONE
  /\ app.STATUS_STORED <> app.STATUS_SESSION.
Proof.
  split; [|split; [|repeat split; discriminate]].
  - intros [[se st last tmr chk spin sl] w].
    destruct (V2_get_result P st w) as (r & st' & w' & E & Hr).
    unfold app_V2.refresh_status. mred. cbn [store]. rewrite E.
    destruct r as [pw|].
    + destruct Hr as [Hne ->]. destruct pw as [|c r]; [congruence|].
      split; reflexivity.
    + destruct Hr as [-> Hf]. mred. cbn [store status_lbl set_status_lbl set_store].
      destruct st as [lbl mem]. cbn [app_V2._in_memory] in *. rewrite Hf.
      split; reflexivity.
  - intros [[se st last tmr chk spin sl] w].
    destruct (V1_get_result P st w) as (r & st' & w' & E & Hr).
    unfold app.refresh_status. mred. cbn [store]. rewrite E.
    destruct r as [pw|].
    + destruct Hr as [Hne ->]. destruct pw as [|c r]; [congruence|].
      destruct (keyring_present P); split; reflexivity.
    + destruct Hr as [-> Hf]. mred. cbn [store status_lbl set_status_lbl set_store].
      destruct st as [svc acc mem]. cbn [app._in_memory] in *. rewrite Hf.
      split; reflexivity.
Qed.

(** *** The DPAPI wrappers and the clipboard flush *)



(** The free call failing: the record decrypts, and [dpapi_decrypt]
    raises all the same. *)
Lemma dpapi_decrypt_raises_when_free_fails :
  fst (app_V2.dpapi_decrypt windows_pc (JStr (lit "QTU2Pg=="))
         (set_faults [Faulty] quiet_world))
  = Raise ArgumentError.
Proof. vm_compute. reflexivity. Qed.





(** X14.  [win_clear_clipboard] never raises.  It returns [True] only
    on Windows and only after emptying the clipboard, and then it has
    closed the clipboard it opened; when it returns [False] the
    clipboard holds what it held. *)
Theorem win_clear_clipboard_closes_what_it_opens (P : Platform) (w : World) :
  exists (b : bool) (w' : World),
    win_clear_clipboard P w = (Ok b, w')
    /\ (b = true ->
        IS_WINDOWS P = true
        /\ clipboard w' = ClipEmpty
        /\ trace w' = trace w ++ [ObsOpenClipboard true; ObsEmptyClipboard; ObsCloseClipboard])
    /\ (b = false ->
        clipboard w' = clipboard w
        /\ (trace w' = trace w \/ trace w' = trace w ++ [ObsOpenClipboard false]))
    /\ (IS_WINDOWS P = false -> b = false /\ w' = w)
    /\ (cred_file w', vault w', qt_timers w', clock w')
       = (cred_file w, vault w, qt_timers w, clock w).
Proof.
  destruct w as [cf v cb ck tm ni fl tr sf].
  unfold win_clear_clipboard.
  destruct (IS_WINDOWS P); cbn [negb]; [|exists false; eexists; mred; repeat split; try discriminate; now left].
  destruct fl as [|[] fl]; mred; cbn [trace set_trace faults set_faults set_clipboard clipboard].
  - exists true. eexists. split; [reflexivity|].
    cbn [trace clipboard cred_file vault qt_timers clock].
    rewrite <- !app_assoc. repeat split; discriminate.
  - exists true. eexists. split; [reflexivity|].
    cbn [trace clipboard cred_file vault qt_timers clock].
    rewrite <- !app_assoc. repeat split; discriminate.
  - exists false. eexists. split; [reflexivity|].
    cbn [trace clipboard cred_file vault qt_timers clock].
    repeat split; try discriminate. now right.
Qed.

Lemma win_clear_clipboard_closes_what_it_opens_witness :
  win_clear_clipboard linux_pc quiet_world = (Ok false, quiet_world).
Proof.
  destruct (win_clear_clipboard_closes_what_it_opens linux_pc quiet_world)
    as (b & w' & E & _ & _ & H & _).
  destruct (H eq_refl) as [-> ->]. exact E.
Defined.

(** *** What every reachable state satisfies *)

Ltac spin_frame :=
  repeat first
    [ frame_tac
    | apply (pres_in_store_self (fun x => spin_secs x)); reflexivity
    | apply (pres_in_world_self (fun x => spin_secs x)) ].

Lemma pres_spin_copy_to_clipboard {Store} (pw : list N) :
  preserving (fun s : MainWindow Store * World => spin_secs (fst s)) (copy_to_clipboard pw).
Proof. unfold copy_to_clipboard, clear_timer_start. spin_frame. Qed.

Lemma pres_spin_slot {Store} (P : Platform) :
  preserving (fun s : MainWindow Store * World => spin_secs (fst s))
    (_maybe_clear_clipboard P).
Proof. unfold _maybe_clear_clipboard. spin_frame. Qed.

Lemma pres_spin_save_settings {Store} :
  preserving (fun s : MainWindow Store * World => spin_secs (fst s)) save_settings.
Proof. unfold save_settings. spin_frame. Qed.

Lemma pres_spin_V2_refresh_status (P : Platform) :
  preserving (fun s : MainWindow app_V2.PasswordStore * World => spin_secs (fst s))
    (app_V2.refresh_status P).
Proof. unfold app_V2.refresh_status. spin_frame. Qed.

Lemma pres_spin_V1_refresh_status (P : Platform) :
  preserving (fun s : MainWindow app.PasswordStore * World => spin_secs (fst s))
    (app.refresh_status P).
Proof. unfold app.refresh_status. spin_frame. Qed.

Lemma pres_spin_V2_change_password (P : Platform) (dlg : dialog) :
  preserving (fun s : MainWindow app_V2.PasswordStore * World => spin_secs (fst s))
    (app_V2.change_password P dlg).
Proof. unfold app_V2.change_password, app_V2.refresh_status. spin_frame. Qed.

Lemma pres_spin_V1_change_password (P : Platform) (dlg : dialog) :
  preserving (fun s : MainWindow app.PasswordStore * World => spin_secs (fst s))
    (app.change_password P dlg).
Proof. unfold app.change_password, app.refresh_status. spin_frame. Qed.

Lemma pres_spin_V2_clear_saved_password (P : Platform) :
  preserving (fun s : MainWindow app_V2.PasswordStore * World => spin_secs (fst s))
    (app_V2.clear_saved_password P).
Proof. unfold app_V2.clear_saved_password, app_V2.refresh_status. spin_frame. Qed.

Lemma pres_spin_V1_clear_saved_password (P : Platform) :
  preserving (fun s : MainWindow app.PasswordStore * World => spin_secs (fst s))
    (app.clear_saved_password P).
Proof. unfold app.clear_saved_password, app.refresh_status. spin_frame. Qed.

Lemma pres_spin_V2_copy_password (P : Platform) (dlg : dialog) :
  preserving (fun s : MainWindow app_V2.PasswordStore * World => spin_secs (fst s))
    (app_V2.copy_password P dlg).
Proof.
  pose proof (@pres_spin_copy_to_clipboard app_V2.PasswordStore).
  unfold app_V2.copy_password, app_V2.refresh_status. spin_frame.
Qed.

Lemma pres_spin_V1_copy_password (P : Platform) (dlg : dialog) :
  preserving (fun s : MainWindow app.PasswordStore * World => spin_secs (fst s))
    (app.copy_password P dlg).
Proof.
  pose proof (@pres_spin_copy_to_clipboard app.PasswordStore).
  unfold app.copy_password, app.refresh_status. spin_frame.
Qed.

Lemma window_inv_plan {Store} (s s' : MainWindow Store * World) :
  clear_plan s' = clear_plan s -> spin_secs (fst s') = spin_secs (fst s) ->
  window_inv s -> window_inv s'.
Proof.
  intros Hp Hs (Ht & Hr & Hl).
  split; [eapply timer_inv_plan; eauto|].
  unfold clear_plan in Hp. injection Hp as H1 H2 _ _.
  rewrite Hs, H1, H2. split; assumption.
Qed.

Lemma keeps_window_of_plan {Store A} (m : M (MainWindow Store * World) A) :
  preserving clear_plan m ->
  preserving (fun s : MainWindow Store * World => spin_secs (fst s)) m ->
  keeps window_inv m.
Proof. intros Hp Hs s H. eapply window_inv_plan; [apply Hp | apply Hs | exact H]. Qed.

Lemma keeps_window_copy_to_clipboard {Store} (pw : list N) :
  keeps window_inv (@copy_to_clipboard Store pw).
Proof.
  intros s (Ht & Hr & Hl).
  split; [apply keeps_copy_to_clipboard; exact Ht|].
  split; [rewrite (pres_spin_copy_to_clipboard pw s); exact Hr|].
  destruct s as [[se st last [ss ti] chk spin lbl] [cf vl cb ck tm ni fl tr sf]].
  cbn in Hl.
  destruct fl as [|[] fl]; destruct chk; destruct ti as [i|];
    cbv -[N.add N.eqb Z.add Z.mul Z.max List.filter List.app];
    try exact Hl; intros _; discriminate.
Qed.

Ltac keeps_window_tac :=
  repeat first
    [ progress intros
    | progress cbv zeta
    | apply keeps_ret
    | apply keeps_window_copy_to_clipboard
    | match goal with
      | |- keeps _ (if ?b then _ else _) => destruct b
      | |- keeps _ (match ?x with _ => _ end) => destruct x
      end
    | apply keeps_bind
    | apply keeps_window_of_plan; [plan_frame | spin_frame] ].

Lemma keeps_window_V2_copy_password (P : Platform) (dlg : dialog) :
  keeps window_inv (app_V2.copy_password P dlg).
Proof. unfold app_V2.copy_password, app_V2.refresh_status. keeps_window_tac. Qed.

Lemma keeps_window_V1_copy_password (P : Platform) (dlg : dialog) :
  keeps window_inv (app.copy_password P dlg).
Proof. unfold app.copy_password, app.refresh_status. keeps_window_tac. Qed.

Lemma pres_spin_deliver_timeout {Store} (P : Platform) :
  preserving (fun s : MainWindow Store * World => spin_secs (fst s)) (deliver_timeout P).
Proof.
  pose proof (@pres_spin_slot Store P).
  unfold deliver_timeout. apply pres_bind; [spin_frame|]. intros t.
  apply pres_bind; [now intros s0|]. intros due. spin_frame.
Qed.

Lemma keeps_window_deliver_timeout {Store} (P : Platform) :
  keeps window_inv (@deliver_timeout Store P).
Proof.
  intros s (Ht & Hr & Hl).
  split; [apply keeps_deliver_timeout; exact Ht|].
  split; [rewrite (pres_spin_deliver_timeout P s); exact Hr|].
  destruct (QTimer_due (_clear_timer (fst s)) (snd s)) eqn:Hdue;
    [|now rewrite (deliver_not_due P s Hdue)].
  destruct Ht as [Hss Hti].
  destruct (timerId (_clear_timer (fst s))) as [i|] eqn:Hi;
    [|unfold QTimer_due in Hdue; rewrite Hi in Hdue; discriminate].
  destruct Hti as [[due Hq] _].
  destruct (_last_copied_value (fst s)) as [v|] eqn:Hv;
    [|exfalso; now apply Hl].
  assert (Ha : armed v i due s) by (repeat split; assumption).
  destruct (deliver_due P Hss Ha Hdue) as (m' & w' & -> & (_ & Hnone & _) & _).
  cbn [fst snd] in *. intros H. now rewrite Hnone in H.
Qed.

Lemma spin_clamp_range (v : Z) : (3 <= spin_clamp v <= 300)%Z.
Proof. unfold spin_clamp. lia. Qed.

Section ReachableWindow.

Context {Store : Type} (P : Platform).
Variables copy_password change_password : dialog -> M (MainWindow Store * World) unit.
Variable clear_saved_password : M (MainWindow Store * World) unit.
Hypothesis copy_inv : forall dlg, keeps window_inv (copy_password dlg).
Hypothesis change_plan : forall dlg, preserving clear_plan (change_password dlg).
Hypothesis change_spin :
  forall dlg, preserving (fun s : MainWindow Store * World => spin_secs (fst s))
                (change_password dlg).
Hypothesis clear_saved_plan : preserving clear_plan clear_saved_password.
Hypothesis clear_saved_spin :
  preserving (fun s : MainWindow Store * World => spin_secs (fst s)) clear_saved_password.

Lemma step_window_inv (e : event) (s : MainWindow Store * World) :
  window_inv s ->
  window_inv (loop_step P copy_password change_password clear_saved_password e s).
Proof using copy_inv change_plan change_spin clear_saved_plan clear_saved_spin.
  intros H. destruct e; cbn [loop_step].
  - now apply copy_inv.
  - eapply window_inv_plan; [apply change_plan | apply change_spin | exact H].
  - eapply window_inv_plan; [apply clear_saved_plan | apply clear_saved_spin | exact H].
  - eapply window_inv_plan;
      [apply pres_plan_save_settings | apply pres_spin_save_settings | exact H].
  - eapply window_inv_plan; [| |exact H]; reflexivity.
  - destruct H as (Ht & _ & Hl). split; [|split].
    + eapply timer_inv_plan; [|exact Ht]. reflexivity.
    + apply spin_clamp_range.
    + exact Hl.
  - eapply window_inv_plan; [| |exact H]; reflexivity.
  - eapply window_inv_plan; [| |exact H]; reflexivity.
  - now apply keeps_window_deliver_timeout.
Qed.

Lemma run_window_inv (evs : list event) :
  forall s : MainWindow Store * World,
    window_inv s ->
    window_inv (loop_run P copy_password change_password clear_saved_password evs s).
Proof using copy_inv change_plan change_spin clear_saved_plan clear_saved_spin.
  unfold loop_run. induction evs as [|e evs IH]; intros s H; cbn [List.fold_left];
    [exact H|].
  apply IH. now apply step_window_inv.
Qed.

End ReachableWindow.

Lemma V2_run_window_inv (P : Platform) (evs : list event)
  (s : MainWindow app_V2.PasswordStore * World) :
  window_inv s -> window_inv (app_V2.run P evs s).
Proof.
  apply (@run_window_inv _ P (app_V2.copy_password P) (app_V2.change_password P)
           (app_V2.clear_saved_password P) (keeps_window_V2_copy_password P)
           (V2_change_password_plan P) (pres_spin_V2_change_password P)
           (V2_clear_saved_password_plan P) (pres_spin_V2_clear_saved_password P)).
Qed.

Lemma V1_run_window_inv (P : Platform) (evs : list event)
  (s : MainWindow app.PasswordStore * World) :
  window_inv s -> window_inv (app.run P evs s).
Proof.
  apply (@run_window_inv _ P (app.copy_password P) (app.change_password P)
           (app.clear_saved_password P) (keeps_window_V1_copy_password P)
           (V1_change_password_plan P) (pres_spin_V1_change_password P)
           (V1_clear_saved_password_plan P) (pres_spin_V1_clear_saved_password P)).
Qed.

(** Given settings whose number of seconds [spin_secs.setValue] accepts,
    [__init__] does not raise and hands over a window that satisfies the
    invariant and is idle. *)
Lemma V2_init_window_inv (P : Platform) (loaded : Settings) (w : World) :
  qt_timers w = [] ->
  fits_c_int (auto_clear_secs loaded) = true ->
  exists m w', app_V2.MainWindow_init P loaded w = (Ok m, w')
               /\ window_inv (m, w') /\ idle (m, w').
Proof.
  intros Hq Hfit. unfold app_V2.MainWindow_init, QSpinBox_setValue. rewrite Hfit.
  match goal with
  | |- context [app_V2.refresh_status P ?s0] =>
      pose proof (V2_refresh_plan P s0) as Hp;
      pose proof (pres_spin_V2_refresh_status P s0) as Hs;
      destruct (nr_V2_refresh_status P s0) as ([] & [m1 w1] & E);
      rewrite E in Hp, Hs |- *
  end.
  exists m1, w1. split; [reflexivity|].
  unfold clear_plan in Hp. cbn [fst snd _last_copied_value _clear_timer spin_secs] in Hp, Hs.
  injection Hp as Hl Ht Hq' _.
  unfold window_inv, timer_inv, idle. cbn [fst snd]. rewrite Hl, Ht, Hq', Hq, Hs. cbn.
  repeat split; try reflexivity; try apply spin_clamp_range. congruence.
Qed.

Lemma V1_init_window_inv (P : Platform) (loaded : Settings) (w : World) :
  qt_timers w = [] ->
  fits_c_int (auto_clear_secs loaded) = true ->
  exists m w', app.MainWindow_init P loaded w = (Ok m, w')
               /\ window_inv (m, w') /\ idle (m, w').
Proof.
  intros Hq Hfit. unfold app.MainWindow_init, QSpinBox_setValue. rewrite Hfit.
  match goal with
  | |- context [app.refresh_status P ?s0] =>
      pose proof (V1_refresh_plan P s0) as Hp;
      pose proof (pres_spin_V1_refresh_status P s0) as Hs;
      destruct (nr_V1_refresh_status P s0) as ([] & [m1 w1] & E);
      rewrite E in Hp, Hs |- *
  end.
  exists m1, w1. split; [reflexivity|].
  unfold clear_plan in Hp. cbn [fst snd _last_copied_value _clear_timer spin_secs] in Hp, Hs.
  injection Hp as Hl Ht Hq' _.
  unfold window_inv, timer_inv, idle. cbn [fst snd]. rewrite Hl, Ht, Hq', Hq, Hs. cbn.
  repeat split; try reflexivity; try apply spin_clamp_range. congruence.
Qed.

(** X15.  Every state the application reaches.  When the number of
    seconds in the loaded settings fits a C [int], [__init__] does not
    raise, and after any sequence of events, in either file: the
    auto-clear timer is single-shot and is the only timer the event loop
    knows (so at most one is running), the spin box is within 3..300, and
    a running timer always has a snapshot to compare the clipboard with.
    When the number does not fit, [spin_secs.setValue] raises
    [OverflowError] and [__init__] with it, the world untouched. *)
Theorem reachable_states_are_well_formed (P : Platform) (loaded : Settings) (w : World)
  (evs : list event) :
  qt_timers w = [] ->
  (fits_c_int (auto_clear_secs loaded) = true ->
   (exists m w',
      app_V2.MainWindow_init P loaded w = (Ok m, w')
      /\ idle (m, w')
      /\ window_inv (app_V2.run P evs (m, w'))
      /\ (List.length (qt_timers (snd (app_V2.run P evs (m, w')))) <= 1)%nat)
   /\ (exists m w',
         app.MainWindow_init P loaded w = (Ok m, w')
         /\ idle (m, w')
         /\ window_inv (app.run P evs (m, w'))
         /\ (List.length (qt_timers (snd (app.run P evs (m, w')))) <= 1)%nat))
  /\ (fits_c_int (auto_clear_secs loaded) = false ->
      app_V2.MainWindow_init P loaded w = (Raise OverflowError, w)
      /\ app.MainWindow_init P loaded w = (Raise OverflowError, w)).
Proof.
  intros Hq. split.
  - intros Hfit. split.
    + destruct (V2_init_window_inv P loaded w Hq Hfit) as (m & w' & E & Hinv & Hidle).
      exists m, w'. split; [exact E|]. split; [exact Hidle|].
      pose proof (V2_run_window_inv P evs Hinv) as H. split; [exact H|].
      apply timer_inv_at_most_one, H.
    + destruct (V1_init_window_inv P loaded w Hq Hfit) as (m & w' & E & Hinv & Hidle).
      exists m, w'. split; [exact E|]. split; [exact Hidle|].
      pose proof (V1_run_window_inv P evs Hinv) as H. split; [exact H|].
      apply timer_inv_at_most_one, H.
  - intros Hfit. unfold app_V2.MainWindow_init, app.MainWindow_init, QSpinBox_setValue.
    rewrite Hfit. split; reflexivity.
Qed.

Lemma reachable_states_are_well_formed_witness :
  let dlg := {| accepted := true; text := lit "P@ss1"; remember_checked := true |} in
  let evs := [Spin_secs 1000; Click_copy dlg; Elapse 5; Click_copy dlg; Click_clear_saved] in
  (exists m w',
     app_V2.MainWindow_init windows_pc Settings_init quiet_world = (Ok m, w')
     /\ window_inv (app_V2.run windows_pc evs (m, w')))
  /\ app_V2.MainWindow_init windows_pc
       {| auto_clear := true; auto_clear_secs := 2 ^ 31 |} quiet_world
     = (Raise OverflowError, quiet_world).
Proof.
  intros dlg evs. split.
  - destruct (@reachable_states_are_well_formed windows_pc Settings_init quiet_world evs
                eq_refl) as [H _].
    destruct (H eq_refl) as [(m & w' & E & _ & Hinv & _) _].
    exists m, w'. split; [exact E | exact Hinv].
  - destruct (@reachable_states_are_well_formed windows_pc
                {| auto_clear := true; auto_clear_secs := 2 ^ 31 |} quiet_world evs
                eq_refl) as [_ H].
    apply (H eq_refl).
Defined.

(** X16.  In a state the application can reach, a copy with "auto-clear"
    checked arms the timer between 3 and 300 seconds ahead: the
    [max(1, ...)] of [copy_password] never takes effect. *)
Theorem auto_clear_delay_is_3_to_300_seconds {Store} (pw : list N)
  (m : MainWindow Store) (w : World) :
  window_inv (m, w) ->
  chk_auto m = true ->
  next_ok 1 w = true ->
  let s' := snd (copy_to_clipboard pw (m, w)) in
  armed pw (next_id w) (clock w + spin_secs m * 1000)%Z s'
  /\ (clock w + 3000 <= clock w + spin_secs m * 1000 <= clock w + 300000)%Z
  /\ window_inv s'.
Proof.
  intros Hinv Hchk Hok s'.
  pose proof (keeps_window_copy_to_clipboard pw Hinv) as Hinv'.
  destruct Hinv as (Ht & Hr & _). cbn [fst] in Hr.
  destruct (copy_to_clipboard_spec pw Hok Ht) as (_ & _ & _ & Hon & _).
  destruct (Hon Hchk) as (Ha & _).
  replace (Z.max 1 (spin_secs m)) with (spin_secs m) in Ha by lia.
  split; [exact Ha|]. split; [lia | exact Hinv'].
Qed.

Lemma auto_clear_delay_is_3_to_300_seconds_witness :
  let m := new_window (app_V2.PasswordStore_init USERNAME_LABEL) in
  armed (lit "P@ss1") 0 20000%Z (snd (copy_to_clipboard (lit "P@ss1") (m, quiet_world))).
Proof.
  intros m.
  apply (@auto_clear_delay_is_3_to_300_seconds _ (lit "P@ss1") m quiet_world).
  - unfold window_inv, timer_inv. cbn.
    repeat split; try reflexivity; try (intros H; discriminate H).
    intros H. now elim H.
  - reflexivity.
  - reflexivity.
Defined.

(** *** From the copy to the timeout *)

(** What else the copy leaves behind: the clock runs on, and the one call
    it makes into the environment is used up. *)
Lemma copy_to_clipboard_rest {Store} (pw : list N) (m : MainWindow Store) (w : World) :
  next_ok 1 w = true ->
  clock (snd (snd (copy_to_clipboard pw (m, w)))) = clock w
  /\ faults (snd (snd (copy_to_clipboard pw (m, w)))) = List.tl (faults w).
Proof.
  intros Hok.
  destruct m as [se st last [ss ti] chk spin lbl];
    destruct w as [cf vl cb ck tm ni fl tr sf].
  unfold next_ok in Hok. cbn [faults] in Hok.
  destruct fl as [|[] fl]; try discriminate Hok;
    destruct chk; destruct ti as [i|];
    cbv -[N.add N.eqb Z.add Z.mul Z.max List.filter List.app]; split; reflexivity.
Qed.

(** The timeout of the armed manager is due when the clock has reached
    the deadline. *)
Lemma armed_due {Store} (v : list N) (i : N) (due : Z) (s : MainWindow Store * World) :
  armed v i due s ->
  QTimer_due (_clear_timer (fst s)) (snd s) = (due <=? clock (snd s))%Z.
Proof.
  intros (_ & Hi & Hq). unfold QTimer_due. rewrite Hi, Hq.
  cbn [List.existsb fst snd]. rewrite N.eqb_refl. cbn [andb]. apply orb_false_r.
Qed.

(** A due timeout runs the slot with the snapshot, on the clipboard as it
    is and with the calls into the environment still to come. *)
Lemma deliver_due_runs_slot {Store} (P : Platform) (v : list N) (i : N) (due : Z)
  (s : MainWindow Store * World) :
  singleShot (_clear_timer (fst s)) = true ->
  armed v i due s ->
  QTimer_due (_clear_timer (fst s)) (snd s) = true ->
  exists m1 w1,
    deliver_timeout P s = _maybe_clear_clipboard P (m1, w1)
    /\ _last_copied_value m1 = Some v
    /\ clipboard w1 = clipboard (snd s)
    /\ faults w1 = faults (snd s).
Proof.
  destruct s as [[se st last [ss ti] chk spin lbl] [cf vl cb ck tm ni fl tr sf]].
  unfold armed. cbn [fst snd _clear_timer _last_copied_value singleShot timerId
                      qt_timers next_id].
  intros -> (-> & -> & ->) Hdue.
  unfold deliver_timeout. unfold bind at 1. cbn [self_get fst _clear_timer].
  unfold bind at 1. cbn [snd]. rewrite Hdue. cbn [singleShot].
  eexists. eexists. split.
  - cbv -[_maybe_clear_clipboard N.eqb List.app]. rewrite N.eqb_refl.
    cbv -[_maybe_clear_clipboard N.eqb List.app]. reflexivity.
  - repeat split; reflexivity.
Qed.

(** The slot on its own value, when the four clipboard calls work. *)
Lemma slot_clears_own_value {Store} (P : Platform) (m : MainWindow Store) (w : World)
  (v : list N) :
  _last_copied_value m = Some v ->
  clip_text (clipboard w) = v ->
  next_ok 4 w = true ->
  let r := _maybe_clear_clipboard P (m, w) in
  clipboard (snd (snd r)) = ClipEmpty.
Proof.
  intros Hlast Hclip Hok.
  destruct m as [se st last tmr chk spin lbl]. cbn in Hlast. subst last.
  destruct w as [cf vl cb ck tm ni fl tr sf].
  destruct P as [isw kp prot unprot].
  cbn in Hclip. subst v.
  unfold next_ok in Hok. cbn [faults] in Hok.
  destruct fl as [|[] [|[] [|[] [|[] [|o5 fl]]]]]; try discriminate Hok; clear Hok.
  all: run_slot E I.
  all: destruct isw; try destruct o5; clip_eval_in E.
  all: injection E as <- <- <-; reflexivity.
Qed.

(** The slot on a clipboard that holds something else. *)
Lemma slot_spares_other_content {Store} (P : Platform) (m : MainWindow Store) (w : World)
  (v : list N) :
  _last_copied_value m = Some v ->
  clip_text (clipboard w) <> v ->
  let r := _maybe_clear_clipboard P (m, w) in
  clipboard (snd (snd r)) = clipboard w.
Proof.
  intros Hlast Hclip.
  destruct m as [se st last tmr chk spin lbl]. cbn in Hlast. subst last.
  destruct w as [cf vl cb ck tm ni fl tr sf].
  destruct P as [isw kp prot unprot].
  cbn in Hclip.
  destruct fl as [|[] fl].
  all: run_slot E Hclip.
  all: injection E as <- <- <-; reflexivity.
Qed.

(** A timeout delivered to the armed manager: nothing before the
    deadline; from the deadline on the manager goes idle, the clipboard
    is emptied if it still holds the snapshot, and is left alone if it
    holds something else. *)
Lemma armed_timeout {Store} (P : Platform) (v : list N) (i : N) (due : Z)
  (s : MainWindow Store * World) :
  singleShot (_clear_timer (fst s)) = true ->
  armed v i due s ->
  let s2 := snd (deliver_timeout P s) in
  ((clock (snd s) < due)%Z -> s2 = s)
  /\ ((due <= clock (snd s))%Z ->
      idle s2
      /\ (clip_text (clipboard (snd s)) = v -> next_ok 4 (snd s) = true ->
          clipboard (snd s2) = ClipEmpty)
      /\ (clip_text (clipboard (snd s)) <> v -> clipboard (snd s2) = clipboard (snd s))).
Proof.
  intros Hss Ha s2. subst s2. pose proof (armed_due Ha) as Hdue. split.
  - intros Hlt. rewrite deliver_not_due; [reflexivity|].
    rewrite Hdue. apply Z.leb_gt. exact Hlt.
  - intros Hle. assert (Hd : QTimer_due (_clear_timer (fst s)) (snd s) = true)
      by (rewrite Hdue; apply Z.leb_le; exact Hle).
    split; [|split].
    + destruct (deliver_due P Hss Ha Hd) as (m' & w' & -> & Hi & _). exact Hi.
    + intros Hc Hok.
      destruct (deliver_due_runs_slot P Hss Ha Hd) as (m1 & w1 & -> & Hl & Hcb & Hfl).
      apply (slot_clears_own_value P m1 w1 Hl).
      * now rewrite Hcb.
      * unfold next_ok in *. now rewrite Hfl.
    + intros Hc.
      destruct (deliver_due_runs_slot P Hss Ha Hd) as (m1 & w1 & -> & Hl & Hcb & Hfl).
      rewrite <- Hcb. apply (slot_spares_other_content P m1 w1 Hl). now rewrite Hcb.
Qed.

(** The copy, then [dt] milliseconds, possibly with another program
    putting [c] on the clipboard in between. *)
Lemma copy_then_wait {Store} (pw : list N) (m : MainWindow Store) (w : World)
  (dt : Z) (other : option clip) :
  window_inv (m, w) -> chk_auto m = true -> next_ok 5 w = true ->
  let s0 := snd (copy_to_clipboard pw (m, w)) in
  let w1 := match other with Some c => set_clipboard c (snd s0) | None => snd s0 end in
  let s1 := (fst s0, set_clock (clock w1 + Z.max 0 dt)%Z w1) in
  singleShot (_clear_timer (fst s1)) = true
  /\ armed pw (next_id w) (clock w + spin_secs m * 1000)%Z s1
  /\ clock (snd s1) = (clock w + Z.max 0 dt)%Z
  /\ clipboard (snd s1) = match other with Some c => c | None => ClipText pw end
  /\ next_ok 4 (snd s1) = true.
Proof.
  intros Hinv Hchk Hok5 s0 w1 s1.
  assert (Hok : next_ok 1 w = true /\ next_ok 4 (set_faults (List.tl (faults w)) w) = true).
  { unfold next_ok in *. destruct w as [cf vl cb ck tm ni fl tr sf]. cbn [faults set_faults] in *.
    destruct fl as [|[] [|[] [|[] [|[] [|[] fl]]]]]; try discriminate Hok5; split; reflexivity. }
  destruct Hok as [Hok1 Hok4].
  destruct Hinv as (Ht & Hr & _). cbn [fst] in Hr.
  destruct (copy_to_clipboard_spec pw Hok1 Ht) as (_ & Hcb & _ & Hon & _).
  destruct (Hon Hchk) as (Ha & _ & Hss & _).
  destruct (@copy_to_clipboard_rest _ pw m w Hok1) as [Hck Hfl].
  replace (Z.max 1 (spin_secs m)) with (spin_secs m) in Ha by lia.
  fold s0 in Hcb, Ha, Hss, Hck, Hfl.
  destruct Ha as (Hl & Hi & Hq).
  subst s1 w1. destruct s0 as [m0 [cf0 vl0 cb0 ck0 tm0 ni0 fl0 tr0 sf0]].
  cbn [fst snd clipboard clock faults qt_timers] in *. subst.
  unfold next_ok in Hok4 |- *. unfold armed.
  destruct w as [cf vl cb ck tm ni fl tr sf]. cbn [faults set_faults clock next_id] in *.
  destruct other as [c|]; cbn; repeat split; assumption.
Qed.

(** X17.  The auto-clear from end to end, in both files.  With a
    password in the cache and "auto-clear" checked, in a state the
    application can reach and with the clipboard calls working: "Copy
    password" puts the password on the clipboard; a timeout delivered
    before the number of seconds in the spin box has passed changes
    nothing; delivered after, it empties the clipboard and leaves the
    manager idle.  If another program has put something else on the
    clipboard meanwhile, that content survives the timeout. *)
Theorem copied_password_is_cleared_on_time (P : Platform) (pw : list N) (dlg : dialog)
  (dt : Z) :
  pw <> [] ->
  (forall (m : MainWindow app_V2.PasswordStore) (w : World),
     app_V2._in_memory (store m) = Some pw ->
     window_inv (m, w) -> chk_auto m = true -> next_ok 5 w = true ->
     let s1 := app_V2.run P [Click_copy dlg; Elapse dt] (m, w) in
     clipboard (snd s1) = ClipText pw
     /\ ((Z.max 0 dt < spin_secs m * 1000)%Z -> app_V2.step P Deliver_timeout s1 = s1)
     /\ ((spin_secs m * 1000 <= dt)%Z ->
         clipboard (snd (app_V2.step P Deliver_timeout s1)) = ClipEmpty
         /\ idle (app_V2.step P Deliver_timeout s1))
     /\ (forall c, clip_text c <> pw -> (spin_secs m * 1000 <= dt)%Z ->
         let s := app_V2.run P [Click_copy dlg; External_clipboard c; Elapse dt;
                                Deliver_timeout] (m, w) in
         clipboard (snd s) = c /\ idle s))
  /\ (forall (m : MainWindow app.PasswordStore) (w : World),
        app._in_memory (store m) = Some pw ->
        window_inv (m, w) -> chk_auto m = true -> next_ok 5 w = true ->
        let s1 := app.run P [Click_copy dlg; Elapse dt] (m, w) in
        clipboard (snd s1) = ClipText pw
        /\ ((Z.max 0 dt < spin_secs m * 1000)%Z -> app.step P Deliver_timeout s1 = s1)
        /\ ((spin_secs m * 1000 <= dt)%Z ->
            clipboard (snd (app.step P Deliver_timeout s1)) = ClipEmpty
            /\ idle (app.step P Deliver_timeout s1))
        /\ (forall c, clip_text c <> pw -> (spin_secs m * 1000 <= dt)%Z ->
            let s := app.run P [Click_copy dlg; External_clipboard c; Elapse dt;
                                Deliver_timeout] (m, w) in
            clipboard (snd s) = c /\ idle s)).
Proof.
  intros Hpw. split.
  - intros m w Hmem Hinv Hchk Hok.
    unfold app_V2.run, app_V2.step, loop_run. cbn [List.fold_left loop_step fst snd].
    rewrite (V2_copy_password_cached P dlg m w Hmem Hpw).
    destruct (copy_then_wait pw dt None Hinv Hchk Hok) as (Hss & Ha & Hck & Hcb & Hok4).
    pose proof (fun c => copy_then_wait pw dt (Some c) Hinv Hchk Hok) as Hother.
    cbv zeta in *.
    split; [exact Hcb|]. split; [|split].
    + intros Hlt. apply (armed_timeout P Hss Ha). rewrite Hck. lia.
    + intros Hle. destruct (armed_timeout P Hss Ha) as [_ H].
      destruct H as (Hi & Hclr & _); [rewrite Hck; lia|].
      split; [|exact Hi]. apply Hclr; [now rewrite Hcb | exact Hok4].
    + intros c Hc Hle. destruct (Hother c) as (Hss' & Ha' & Hck' & Hcb' & _).
      destruct (armed_timeout P Hss' Ha') as [_ H].
      destruct H as (Hi & _ & Hkeep); [rewrite Hck'; lia|].
      split; [|exact Hi]. rewrite Hkeep; [exact Hcb' | now rewrite Hcb'].
  - intros m w Hmem Hinv Hchk Hok.
    unfold app.run, app.step, loop_run. cbn [List.fold_left loop_step fst snd].
    rewrite (V1_copy_password_cached P dlg m w Hmem Hpw).
    destruct (copy_then_wait pw dt None Hinv Hchk Hok) as (Hss & Ha & Hck & Hcb & Hok4).
    pose proof (fun c => copy_then_wait pw dt (Some c) Hinv Hchk Hok) as Hother.
    cbv zeta in *.
    split; [exact Hcb|]. split; [|split].
    + intros Hlt. apply (armed_timeout P Hss Ha). rewrite Hck. lia.
    + intros Hle. destruct (armed_timeout P Hss Ha) as [_ H].
      destruct H as (Hi & Hclr & _); [rewrite Hck; lia|].
      split; [|exact Hi]. apply Hclr; [now rewrite Hcb | exact Hok4].
    + intros c Hc Hle. destruct (Hother c) as (Hss' & Ha' & Hck' & Hcb' & _).
      destruct (armed_timeout P Hss' Ha') as [_ H].
      destruct H as (Hi & _ & Hkeep); [rewrite Hck'; lia|].
      split; [|exact Hi]. rewrite Hkeep; [exact Hcb' | now rewrite Hcb'].
Qed.

Lemma copied_password_is_cleared_on_time_witness :
  let st := app_V2.set_in_memory (Some (lit "P@ss1"))
              (app_V2.PasswordStore_init USERNAME_LABEL) in
  let dlg := {| accepted := false; text := []; remember_checked := false |} in
  let s1 := app_V2.run windows_pc [Click_copy dlg; Elapse 20000] (new_window st, quiet_world) in
  clipboard (snd s1) = ClipText (lit "P@ss1")
  /\ clipboard (snd (app_V2.step windows_pc Deliver_timeout s1)) = ClipEmpty.
Proof.
  intros st dlg s1.
  destruct (@copied_password_is_cleared_on_time windows_pc (lit "P@ss1") dlg 20000%Z)
    as [H _]; [discriminate|].
  destruct (H (new_window st) quiet_world eq_refl) as (H1 & _ & H2 & _).
  - unfold window_inv, timer_inv. cbn.
    repeat split; try reflexivity; try (intros H0; discriminate H0).
    intros H0. now elim H0.
  - reflexivity.
  - reflexivity.
  - split; [exact H1|]. apply H2. cbn. intros H0. discriminate H0.
Defined.

(** *** "Copy password" without a password *)

(** X18.  "Copy password" when the store has no password and the dialog
    is cancelled or comes back empty: nothing is copied.  The clipboard,
    the snapshot, the timer and the cache are as before, no record is
    written, and the call does not raise; the warning is shown exactly
    when the dialog was accepted with an empty password. *)
Theorem copy_without_password_copies_nothing (P : Platform) (dlg : dialog) :
  accepted dlg = false \/ text dlg = [] ->
  (forall (m : MainWindow app_V2.PasswordStore) (w : World),
     fst (app_V2.PasswordStore_get P (store m, w)) = Ok None ->
     let r := app_V2.copy_password P dlg (m, w) in
     fst r = Ok tt
     /\ fst (snd r) = m
     /\ (clipboard (snd (snd r)), cred_file (snd (snd r)), qt_timers (snd (snd r)))
        = (clipboard w, cred_file w, qt_timers w)
     /\ warnings (snd (snd r))
        = warnings w ++ (if accepted dlg then [ObsWarning (lit "Password required")] else []))
  /\ (forall (m : MainWindow app.PasswordStore) (w : World),
        fst (app.PasswordStore_get P (store m, w)) = Ok None ->
        let r := app.copy_password P dlg (m, w) in
        fst r = Ok tt
        /\ fst (snd r) = m
        /\ (clipboard (snd (snd r)), vault (snd (snd r)), qt_timers (snd (snd r)))
           = (clipboard w, vault w, qt_timers w)
        /\ warnings (snd (snd r))
           = warnings w ++ (if accepted dlg then [ObsWarning (lit "Password required")] else [])).
Proof.
  intros Hdlg. split.
  - intros m w Hget r. subst r.
    destruct (V2_get_result P (store m) w) as (r0 & st' & w' & E & Hr).
    rewrite E in Hget. cbn [fst] in Hget. injection Hget as ->. destruct Hr as [-> _].
    pose proof (@pres_V2_get _ (fun w => (clipboard w, cred_file w, qt_timers w))
                  (fun _ _ => eq_refl) (fun _ _ _ => eq_refl) P (store m, w)) as Hfr.
    pose proof (@pres_V2_get _ warnings (fun _ _ => eq_refl) warnings_emit P (store m, w)) as Hwr.
    rewrite E in Hfr, Hwr. cbn [fst snd] in Hfr, Hwr.
    assert (Hm : set_store (store m) m = m) by now destruct m.
    assert (Heq : app_V2.copy_password P dlg (m, w)
                  = (Ok tt, (m, if accepted dlg
                                then set_trace (trace w' ++ [ObsWarning (lit "Password required")]) w'
                                else w'))).
    { unfold app_V2.copy_password. unfold bind at 1. unfold in_store. cbn [fst snd].
      rewrite E. cbn [truthy_opt negb]. rewrite Hm.
      destruct (accepted dlg); cbn [negb]; [|reflexivity].
      destruct Hdlg as [Hd|Hd]; [discriminate|]. rewrite Hd. reflexivity. }
    rewrite Heq. cbn [fst snd].
    destruct (accepted dlg).
    + repeat split; try assumption.
      rewrite <- Hwr. unfold warnings. cbn [trace set_trace].
      rewrite List.filter_app. reflexivity.
    + repeat split; try assumption. now rewrite app_nil_r.
  - intros m w Hget r. subst r.
    destruct (V1_get_result P (store m) w) as (r0 & st' & w' & E & Hr).
    rewrite E in Hget. cbn [fst] in Hget. injection Hget as ->. destruct Hr as [-> _].
    pose proof (@pres_V1_get _ (fun w => (clipboard w, vault w, qt_timers w))
                  (fun _ _ => eq_refl) P (store m, w)) as Hfr.
    pose proof (@pres_V1_get _ warnings (fun _ _ => eq_refl) P (store m, w)) as Hwr.
    rewrite E in Hfr, Hwr. cbn [fst snd] in Hfr, Hwr.
    assert (Hm : set_store (store m) m = m) by now destruct m.
    assert (Heq : app.copy_password P dlg (m, w)
                  = (Ok tt, (m, if accepted dlg
                                then set_trace (trace w' ++ [ObsWarning (lit "Password required")]) w'
                                else w'))).
    { unfold app.copy_password. unfold bind at 1. unfold in_store. cbn [fst snd].
      rewrite E. cbn [truthy_opt negb]. rewrite Hm.
      destruct (accepted dlg); cbn [negb]; [|reflexivity].
      destruct Hdlg as [Hd|Hd]; [discriminate|]. rewrite Hd. reflexivity. }
    rewrite Heq. cbn [fst snd].
    destruct (accepted dlg).
    + repeat split; try assumption.
      rewrite <- Hwr. unfold warnings. cbn [trace set_trace].
      rewrite List.filter_app. reflexivity.
    + repeat split; try assumption. now rewrite app_nil_r.
Qed.

Lemma copy_without_password_copies_nothing_witness :
  let dlg := {| accepted := true; text := []; remember_checked := true |} in
  let m := new_window (app_V2.PasswordStore_init USERNAME_LABEL) in
  let r := app_V2.copy_password windows_pc dlg (m, quiet_world) in
  fst (snd r) = m /\ clipboard (snd (snd r)) = ClipEmpty.
Proof.
  intros dlg m r.
  destruct (@copy_without_password_copies_nothing windows_pc dlg (or_intror eq_refl))
    as [H _].
  destruct (H m quiet_world eq_refl) as (_ & H1 & H2 & _).
  split; [exact H1|]. exact (f_equal (fun t => fst (fst t)) H2).
Defined.

(** *** The password just set is the one that is copied *)

Lemma pres_fst_V1_clear_device_store (P : Platform) :
  preserving (fun s : app.PasswordStore * World => fst s)
    (app.PasswordStore_clear_device_store P).
Proof. unfold app.PasswordStore_clear_device_store. frame_tac. Qed.

(** X20.  After "Set / Change password" with a non-empty password, in
    either file and whatever the "remember" box says and whichever call
    into the environment fails: the new password is the one in the cache,
    the status line says "stored", and the next "Copy password" asks
    nothing and copies exactly that password. *)
Theorem copy_after_change_copies_new_password (P : Platform) (dlg dlg' : dialog) :
  accepted dlg = true ->
  text dlg <> [] ->
  (forall (s : MainWindow app_V2.PasswordStore * World),
     let s1 := snd (app_V2.change_password P dlg s) in
     app_V2._in_memory (store (fst s1)) = Some (text dlg)
     /\ status_lbl (fst s1) = app_V2.STATUS_STORED
     /\ app_V2.copy_password P dlg' s1 = copy_to_clipboard (text dlg) s1)
  /\ (forall (s : MainWindow app.PasswordStore * World),
        let s1 := snd (app.change_password P dlg s) in
        app._in_memory (store (fst s1)) = Some (text dlg)
        /\ status_lbl (fst s1)
           = (if keyring_present P then app.STATUS_STORED else app.STATUS_SESSION)
        /\ app.copy_password P dlg' s1 = copy_to_clipboard (text dlg) s1).
Proof.
  intros Hacc Hpw. destruct (text dlg) as [|c r] eqn:Ht; [congruence|]. clear Hpw.
  split.
  - intros [m w] s1.
    assert (Hmem : app_V2._in_memory (store (fst s1)) = Some (c :: r)
                   /\ status_lbl (fst s1) = app_V2.STATUS_STORED).
    { subst s1. unfold app_V2.change_password. rewrite Hacc, Ht. cbn [truthy negb].
      destruct (negb (IS_WINDOWS P) && remember_checked dlg);
        [destruct (V2_set_cache P (c :: r) false (store m)
                     (set_trace (trace w ++ [ObsInformation (lit "Note")]) w)) as [w1 E]
        |destruct (V2_set_cache P (c :: r) (remember_checked dlg) (store m) w) as [w1 E]];
        unfold app_V2.refresh_status;
        mred; cbn [store]; rewrite E; mred; cbn [store set_store];
        rewrite V2_get_cached by reflexivity; split; reflexivity. }
    destruct Hmem as [Hmem Hst]. split; [exact Hmem|]. split; [exact Hst|].
    destruct s1 as [m1 w1]. apply V2_copy_password_cached; [exact Hmem | discriminate].
  - intros [m w] s1.
    assert (Hmem : app._in_memory (store (fst s1)) = Some (c :: r)
                   /\ status_lbl (fst s1)
                      = (if keyring_present P then app.STATUS_STORED
                         else app.STATUS_SESSION)).
    { subst s1. unfold app.change_password. rewrite Hacc, Ht. cbn [truthy negb].
      destruct (negb (remember_checked dlg) && keyring_present P).
      - destruct (nr_V1_clear_device_store P (store m, w)) as ([] & [st0 w0] & E0).
        pose proof (pres_fst_V1_clear_device_store P (store m, w)) as Hst0.
        rewrite E0 in Hst0. cbn [fst snd] in Hst0. subst st0.
        destruct (V1_set_cache P (c :: r) (remember_checked dlg) (store m) w0) as [w1 E].
        unfold app.refresh_status.
        mred; cbn [store]; rewrite E0; mred; cbn [store set_store]; rewrite E; mred;
          cbn [store set_store].
        rewrite V1_get_cached by reflexivity.
        destruct (keyring_present P); split; reflexivity.
      - destruct (V1_set_cache P (c :: r) (remember_checked dlg) (store m) w) as [w1 E].
        unfold app.refresh_status.
        mred; cbn [store]; rewrite E; mred; cbn [store set_store].
        rewrite V1_get_cached by reflexivity.
        destruct (keyring_present P); split; reflexivity. }
    destruct Hmem as [Hmem Hst]. split; [exact Hmem|]. split; [exact Hst|].
    destruct s1 as [m1 w1]. apply V1_copy_password_cached; [exact Hmem | discriminate].
Qed.

Lemma copy_after_change_copies_new_password_witness :
  let dlg := {| accepted := true; text := lit "new"; remember_checked := true |} in
  let m := new_window (app_V2.PasswordStore_init USERNAME_LABEL) in
  let s1 := snd (app_V2.change_password windows_pc dlg (m, windows_world_old)) in
  app_V2._in_memory (store (fst s1)) = Some (lit "new").
Proof.
  intros dlg m s1.
  destruct (@copy_after_change_copies_new_password windows_pc dlg dlg eq_refl) as [H _];
    [discriminate|].
  apply (H (m, windows_world_old)).
Defined.

(** *** The keyring entry that [set] leaves *)

(** X21.  [PasswordStore.set] of app.py never raises and always caches
    the password.  The keyring afterwards holds what it held, or what it
    held with this store's entry set to the password, and nothing else of
    the world changes but the fault script; without "remember" or
    without the keyring package the world is untouched; with both, and
    the keyring call working, the entry is the password. *)
Theorem keyring_set_writes_entry_or_nothing (P : Platform) (pw : list N) (remember : bool)
  (st : app.PasswordStore) (w : World) :
  let r := app.PasswordStore_set P pw remember (st, w) in
  let key := (app.service st, app.account st) in
  fst r = Ok tt
  /\ fst (snd r) = app.set_in_memory (Some pw) st
  /\ (vault (snd (snd r)) = vault w \/ vault (snd (snd r)) = <[key := pw]> (vault w))
  /\ (cred_file (snd (snd r)), clipboard (snd (snd r)), qt_timers (snd (snd r)),
      trace (snd (snd r)))
     = (cred_file w, clipboard w, qt_timers w, trace w)
  /\ (remember = false \/ keyring_present P = false -> snd (snd r) = w)
  /\ (remember = true -> keyring_present P = true -> next_ok 1 w = true ->
      vault (snd (snd r)) !! key = Some pw).
Proof.
  destruct st as [svc acc mem]. destruct w as [cf v cb ck tm ni fl tr sf].
  unfold app.PasswordStore_set, next_ok. cbn [faults app.service app.account].
  destruct remember; destruct (keyring_present P); cbn [andb];
    try (mred; cbn; repeat split; try (now left); try reflexivity;
         intros; congruence).
  destruct fl as [|[] fl]; mred; cbn.
  - repeat split; try (now right); try reflexivity.
    + intros [H|H]; discriminate H.
    + intros _ _ _. apply lookup_insert_eq.
  - repeat split; try (now right); try reflexivity.
    + intros [H|H]; discriminate H.
    + intros _ _ _. apply lookup_insert_eq.
  - repeat split; try (now left); try reflexivity.
    + intros [H|H]; discriminate H.
    + intros _ _ H. discriminate H.
Qed.

Lemma keyring_set_writes_entry_or_nothing_witness :
  let st := app.PasswordStore_init app.SERVICE_NAME USERNAME_LABEL in
  vault (snd (snd (app.PasswordStore_set linux_pc (lit "new") true (st, keyring_world_old))))
    !! (app.SERVICE_NAME, USERNAME_LABEL) = Some (lit "new").
Proof.
  intros st.
  destruct (keyring_set_writes_entry_or_nothing linux_pc (lit "new") true st keyring_world_old)
    as (_ & _ & _ & _ & _ & H).
  apply H; reflexivity.
Defined.

(** *** Saving the settings *)

(** X19.  [save_settings] copies the check box and the spin box into the
    [Settings] object, calls [Settings.save] and shows "Saved"; it
    returns normally whatever fails.  The settings file afterwards is the
    old one, a truncated one, or holds exactly the two live values, and it
    holds them whenever the three file calls work.  Record, keyring,
    clipboard, clock and timers are untouched, and the window keeps
    everything but its settings. *)
Theorem save_settings_writes_live_values_or_fails_safely {Store}
  (s : MainWindow Store * World) :
  let live := {| auto_clear := chk_auto (fst s); auto_clear_secs := spin_secs (fst s) |} in
  let written := Parsed (JDict [(lit "auto_clear", JBool (chk_auto (fst s)));
                                (lit "auto_clear_secs", JNum (spin_secs (fst s)))]) in
  exists w',
    save_settings s = (Ok tt, (set_settings live (fst s), w'))
    /\ (settings_file w' = settings_file (snd s)
        \/ settings_file w' = Some Unparseable
        \/ settings_file w' = Some written)
    /\ (next_ok 3 (snd s) = true -> settings_file w' = Some written)
    /\ trace w' = trace (snd s) ++ [ObsInformation (lit "Saved")]
    /\ (cred_file w', vault w', clipboard w', clock w', qt_timers w', next_id w')
       = (cred_file (snd s), vault (snd s), clipboard (snd s), clock (snd s),
          qt_timers (snd s), next_id (snd s)).
Proof.
  destruct s as [[se st last tmr chk spin lbl] [cf v cb ck tm ni fl tr sf]].
  unfold next_ok. cbn [fst snd chk_auto spin_secs faults].
  unfold save_settings, Settings_save.
  destruct fl as [|[] [|[] [|[] fl]]]; mred;
    cbn [settings set_settings auto_clear auto_clear_secs chk_auto spin_secs
         faults set_faults set_settings_file set_trace trace fst snd];
    eexists; (split; [reflexivity|]);
    cbn [settings_file trace cred_file vault clipboard clock qt_timers next_id];
    repeat split; try (now left); try (right; now left); try (right; now right);
    try reflexivity; intros H; discriminate H.
Qed.

Lemma save_settings_writes_live_values_or_fails_safely_witness :
  let m := set_spin_secs 45 (set_chk_auto false
             (new_window (app_V2.PasswordStore_init USERNAME_LABEL))) in
  settings_file (snd (snd (save_settings (m, quiet_world))))
  = Some (Parsed (JDict [(lit "auto_clear", JBool false);
                         (lit "auto_clear_secs", JNum 45)])).
Proof.
  intros m.
  destruct (save_settings_writes_live_values_or_fails_safely (m, quiet_world))
    as (w' & E & _ & H & _).
  rewrite E. apply H. reflexivity.
Defined.

(** *** Records that cannot be read *)

Ltac store_eval_in H :=
  cbv -[app_V2.dpapi_decrypt app_V2.dpapi_encrypt py_get py_or truthy truthy_opt lit
        List.app] in H.

(** X22.  [get()] of app_V2.py with an empty cache and a record that
    is missing, is not JSON, has no usable ["dpapi"] entry or does not
    decrypt: the answer is [None], the cache stays empty, and the record
    is left where it is, neither repaired nor removed. *)
Theorem unreadable_record_reads_as_no_password (P : Platform)
  (st : app_V2.PasswordStore) (w : World) :
  truthy_opt (app_V2._in_memory st) = false ->
  unreadable P (cred_file w) ->
  exists w',
    app_V2.PasswordStore_get P (st, w) = (Ok None, (st, w'))
    /\ cred_file w' = cred_file w
    /\ (vault w', clipboard w', qt_timers w') = (vault w, clipboard w, qt_timers w).
Proof.
  intros Hmem Hbad.
  pose proof (@pres_V2_get _ (fun w => (cred_file w, (vault w, clipboard w, qt_timers w)))
                (fun _ _ => eq_refl) (fun _ _ _ => eq_refl) P (st, w)) as Hfr.
  destruct (V2_get_result P st w) as (r & st' & w' & E & Hr).
  rewrite E in Hfr. cbn [fst snd] in Hfr.
  destruct r as [pw|].
  - exfalso. destruct Hr as [Hne _].
    destruct st as [lbl mem]. cbn [app_V2._in_memory] in Hmem.
    destruct w as [cf v cb ck tm ni fl tr sf]. cbn [cred_file] in Hbad.
    unfold app_V2.PasswordStore_get in E. store_eval_in E. rewrite Hmem in E.
    destruct fl as [|[] fl]; destruct cf as [[|j]|]; store_eval_in E;
      try discriminate E.
    all: cbn [unreadable] in Hbad.
    all: destruct (py_get j (lit "dpapi")) as [x|e]; store_eval_in E; try discriminate E.
    all: destruct (truthy (py_or x (JStr []))) eqn:Hx; store_eval_in E; try discriminate E.
    all: destruct Hbad as [Hbad|Hbad]; [discriminate Hbad|].
    all: match type of E with
         | context [app_V2.dpapi_decrypt ?p ?a ?b] =>
             pose proof (Hbad b) as Hb;
             destruct (app_V2.dpapi_decrypt p a b) as [[[[|c r]|]|e] w2]
         end; store_eval_in E; try discriminate E.
    all: specialize (Hb (c :: r) eq_refl); discriminate Hb.
  - destruct Hr as [-> _]. exists w'. split; [exact E|].
    split; [exact (f_equal fst Hfr) | exact (f_equal snd Hfr)].
Qed.

Lemma unreadable_record_reads_as_no_password_witness :
  exists w',
    app_V2.PasswordStore_get windows_pc
      (app_V2.PasswordStore_init USERNAME_LABEL,
       set_cred_file (Some Unparseable) quiet_world)
    = (Ok None, (app_V2.PasswordStore_init USERNAME_LABEL, w'))
    /\ cred_file w' = Some Unparseable.
Proof.
  destruct (@unreadable_record_reads_as_no_password windows_pc
              (app_V2.PasswordStore_init USERNAME_LABEL)
              (set_cred_file (Some Unparseable) quiet_world) eq_refl I)
    as (w' & E & Hcf & _).
  exists w'. split; [exact E | exact Hcf].
Defined.

(** A record written under another login is unreadable: DPAPI refuses
    it. *)
Lemma other_users_record_is_unreadable :
  unreadable windows_pc_other_user (cred_file windows_world_old).
Proof.
  cbn [unreadable windows_world_old cred_file]. vm_compute py_get. cbv iota.
  right. intros w pw. vm_compute. intros H. discriminate H.
Qed.
